(** * OpenClaw Inspector: danger scanner, entry parser and read progress

    A shallow embedding of the logic of [server.js] (the danger scan of
    [/api/danger], [readSession], the message counts of [/api/counts]
    and [resolveStatus]), of the [App] component ([parseJSONL], the
    progress migration of the initial load, the recomputation on a file
    change, [loadSessionData], [handleMarkRead], [handleRename]) and of
    [utils] ([parseCSV], the filters and the badge counts of the session
    list), followed by the properties stated about them. *)

From stdpp Require Import base list strings gmap.
From Stdlib Require Import ZArith NArith Ascii Lia Sorted.

Set Warnings "-register-all,-clear-no-such-hyp".

Local Open Scope list_scope.
Local Open Scope bool_scope.

(** ** JavaScript strings

    A JavaScript string is a sequence of UTF-16 code units; [length],
    [slice], [substring], [startsWith] and the regular expressions of the
    source (no [u] flag) all work on code units. *)

Definition jsstring := list N.

(** A literal of the source whose characters are ASCII. *)
Definition js (s : string) : jsstring :=
  map Ascii.N_of_ascii (String.list_ascii_of_string s).
Arguments js s%_string.

Definition str_eqb (a b : jsstring) : bool := bool_decide (a = b).

(** [s.startsWith(p)] *)
Fixpoint startsWith (s p : jsstring) : bool :=
  match p, s with
  | [], _ => true
  | _ :: _, [] => false
  | c :: p', d :: s' => N.eqb c d && startsWith s' p'
  end.

(** [s.includes(p)] *)
Fixpoint includes (s p : jsstring) : bool :=
  startsWith s p ||
  match s with
  | [] => false
  | _ :: s' => includes s' p
  end.

(** [s.endsWith(p)] *)
Definition endsWith (s p : jsstring) : bool :=
  startsWith (rev s) (rev p).

(** [s.substring(0, n)] and [s.slice(0, n)] for [0 <= n]. *)
Definition substring0 (n : nat) (s : jsstring) : jsstring := take n s.

(** [s.split(sep)] for a one-unit separator: never the empty array. *)
Fixpoint split (sep : N) (s : jsstring) : list jsstring :=
  match s with
  | [] => [[]]
  | c :: s' =>
      if N.eqb c sep then [] :: split sep s'
      else match split sep s' with
           | [] => [[c]]
           | l :: ls => (c :: l) :: ls
           end
  end.

(** White space and line terminators, as [String.prototype.trim] and the
    class [\s] have them. *)
Definition isWhiteSpace (c : N) : bool :=
  ((9 <=? c) && (c <=? 13) || (c =? 32) || (c =? 160) || (c =? 5760)
   || (8192 <=? c) && (c <=? 8202) || (c =? 8232) || (c =? 8233)
   || (c =? 8239) || (c =? 8287) || (c =? 12288) || (c =? 65279))%N.

Fixpoint trimStart (s : jsstring) : jsstring :=
  match s with
  | c :: s' => if isWhiteSpace c then trimStart s' else s
  | [] => []
  end.

Definition trim (s : jsstring) : jsstring :=
  rev (trimStart (rev (trimStart s))).

(** ** JSON values, as [JSON.parse] returns them

    A number is held as the text JavaScript prints for it (its [ToString]),
    which identifies it: the scanner only tests numbers for truthiness,
    compares them and prints them.  An object is the list of its own
    properties in enumeration order, each key once. *)

Inductive json : Type :=
| JNull
| JBool (b : bool)
| JNum (text : jsstring)
| JStr (s : jsstring)
| JArr (items : list json)
| JObj (props : list (jsstring * json)).

(** A JavaScript value that may be [undefined]. *)
Definition jsval := option json.

Fixpoint lookup_prop {V} (k : jsstring) (ps : list (jsstring * V)) : option V :=
  match ps with
  | [] => None
  | (k', v) :: ps' => if str_eqb k k' then Some v else lookup_prop k ps'
  end.

(** [v.k] and [v?.k]: only objects carry the properties read by the
    source ([type], [id], [message], [content], [name], [arguments],
    [input], [action]); reading them from a number, boolean, string or
    array gives [undefined]. *)
Definition prop (k : string) (v : json) : jsval :=
  match v with
  | JObj ps => lookup_prop (js k) ps
  | _ => None
  end.
Arguments prop k%_string v.

(** [ToBoolean]. *)
Definition truthy (v : json) : bool :=
  match v with
  | JNull => false
  | JBool b => b
  | JNum t => negb (str_eqb t (js "0"))
  | JStr s => negb (str_eqb s [])
  | JArr _ | JObj _ => true
  end.

Definition truthy_val (v : jsval) : bool :=
  match v with
  | Some x => truthy x
  | None => false
  end.

(** [a || b] *)
Definition js_or (a b : jsval) : jsval :=
  if truthy_val a then a else b.

Fixpoint join (sep : jsstring) (l : list jsstring) : jsstring :=
  match l with
  | [] => []
  | [x] => x
  | x :: l' => x ++ sep ++ join sep l'
  end.

(** [ToString], as a template literal and [+] on a string apply it. *)
Fixpoint to_string (v : json) : jsstring :=
  match v with
  | JNull => js "null"
  | JBool true => js "true"
  | JBool false => js "false"
  | JNum t => t
  | JStr s => s
  | JArr items =>
      join (js ",")
        (map (fun x => match x with JNull => [] | _ => to_string x end) items)
  | JObj _ => js "[object Object]"
  end.

(** [a === b] on values of distinct parse results: two objects or two
    arrays are never the same reference. *)
Definition strict_eq (a b : json) : bool :=
  match a, b with
  | JNull, JNull => true
  | JBool x, JBool y => Bool.eqb x y
  | JNum x, JNum y => str_eqb x y
  | JStr x, JStr y => str_eqb x y
  | _, _ => false
  end.

(** ** Regular expressions: [new RegExp(p, "i")] and [rx.test(s)]

    The fragment of the pattern language modelled: literal ASCII
    characters, [.], the escapes [\s \S \d \D \w \W \t \n \r \f \v] and
    escaped punctuation, classes [[...]] and [[^...]] with ranges, groups
    [(...)] and [(?:...)], alternation and the quantifiers [* + ?] (lazy or
    not).  [RegExp] is [None] on any other pattern, which includes every
    pattern the engine rejects with a [SyntaxError].  Without the [g] and
    [y] flags [test] keeps no state: it tells whether some substring of the
    subject matches. *)

Module Regex.

(** Sets of code units. *)
Inductive cset : Type :=
| CNone
| CDot                       (* [.]: all but the line terminators *)
| CRange (lo hi : N)
| CSpace | CDigit | CWord    (* [\s], [\d], [\w] *)
| CNot (c : cset)
| CUnion (a b : cset).

Inductive re : Type :=
| Fail
| Eps
| Chr (c : cset)
| Cat (a b : re)
| Alt (a b : re)
| Star (a : re).

Definition in_range (lo hi x : N) : bool := ((lo <=? x) && (x <=? hi))%N.

(** The other case of an ASCII letter; under the [i] flag without [u] a
    code unit of 128 or more is never identified with an ASCII one. *)
Definition swapcase (x : N) : N :=
  if in_range 65 90 x then (x + 32)%N
  else if in_range 97 122 x then (x - 32)%N
  else x.

Definition isLineTerminator (x : N) : bool :=
  ((x =? 10) || (x =? 13) || (x =? 8232) || (x =? 8233))%N.

Definition isWordChar (x : N) : bool :=
  in_range 48 57 x || in_range 65 90 x || in_range 97 122 x || (x =? 95)%N.

(** Membership under the [i] flag. *)
Fixpoint mem (c : cset) (x : N) : bool :=
  match c with
  | CNone => false
  | CDot => negb (isLineTerminator x)
  | CRange lo hi => in_range lo hi x || in_range lo hi (swapcase x)
  | CSpace => isWhiteSpace x
  | CDigit => in_range 48 57 x
  | CWord => isWordChar x
  | CNot c' => negb (mem c' x)
  | CUnion a b => mem a x || mem b x
  end.

Fixpoint nullable (r : re) : bool :=
  match r with
  | Fail => false
  | Eps => true
  | Chr _ => false
  | Cat a b => nullable a && nullable b
  | Alt a b => nullable a || nullable b
  | Star _ => true
  end.

Definition cat (a b : re) : re :=
  match a, b with
  | Fail, _ | _, Fail => Fail
  | Eps, _ => b
  | _, _ => Cat a b
  end.

Definition alt (a b : re) : re :=
  match a, b with
  | Fail, _ => b
  | _, Fail => a
  | _, _ => Alt a b
  end.

(** The residual of [r] after the code unit [x]. *)
Fixpoint deriv (x : N) (r : re) : re :=
  match r with
  | Fail | Eps => Fail
  | Chr c => if mem c x then Eps else Fail
  | Cat a b =>
      if nullable a then alt (cat (deriv x a) b) (deriv x b)
      else cat (deriv x a) b
  | Alt a b => alt (deriv x a) (deriv x b)
  | Star a => cat (deriv x a) (Star a)
  end.

(** [r] matches the whole of [s]. *)
Fixpoint matches (r : re) (s : jsstring) : bool :=
  match s with
  | [] => nullable r
  | x :: s' => matches (deriv x r) s'
  end.

Definition anything : re := Star (Chr (CNot CNone)).

(** [rx.test(s)]: some substring of [s] matches. *)
Definition test (r : re) (s : jsstring) : bool :=
  matches (Cat anything (Cat r anything)) s.

(** *** The pattern parser *)

Definition ch (a : Ascii.ascii) : N := Ascii.N_of_ascii a.
Arguments ch a%_char.

Definition isPunct (x : N) : bool :=
  in_range 33 47 x || in_range 58 64 x || in_range 91 94 x
  || (x =? 96)%N || in_range 123 126 x.

(** The character after a backslash: a set, or one code unit. *)
Definition escape (x : N) : option cset :=
  if (x =? ch "s")%N then Some CSpace
  else if (x =? ch "S")%N then Some (CNot CSpace)
  else if (x =? ch "d")%N then Some CDigit
  else if (x =? ch "D")%N then Some (CNot CDigit)
  else if (x =? ch "w")%N then Some CWord
  else if (x =? ch "W")%N then Some (CNot CWord)
  else if (x =? ch "t")%N then Some (CRange 9 9)
  else if (x =? ch "n")%N then Some (CRange 10 10)
  else if (x =? ch "v")%N then Some (CRange 11 11)
  else if (x =? ch "f")%N then Some (CRange 12 12)
  else if (x =? ch "r")%N then Some (CRange 13 13)
  else if isPunct x then Some (CRange x x)
  else None.

(** One member of a class: an escape or a plain code unit. *)
Definition classAtom (s : jsstring) : option (cset * jsstring) :=
  match s with
  | [] => None
  | x :: rest =>
      if (x =? ch "\")%N then
        match rest with
        | [] => None
        | y :: rest' =>
            match escape y with
            | Some c => Some (c, rest')
            | None => None
            end
        end
      else if (128 <=? x)%N then None
      else Some (CRange x x, rest)
  end.

(** The members of a class up to its closing bracket. *)
Fixpoint classItems (n : nat) (acc : cset) (s : jsstring)
  : option (cset * jsstring) :=
  match n with
  | O => None
  | S n' =>
      match s with
      | [] => None
      | x :: rest =>
          if (x =? ch "]")%N then Some (acc, rest)
          else
            match classAtom s with
            | None => None
            | Some (a, rest1) =>
                match rest1 with
                | d :: y :: _ =>
                    if (d =? ch "-")%N && negb (y =? ch "]")%N then
                      match a, classAtom (tail rest1) with
                      | CRange lo lo', Some (CRange hi hi', rest2) =>
                          if (lo =? lo')%N && (hi =? hi')%N && (lo <=? hi)%N
                          then classItems n' (CUnion acc (CRange lo hi)) rest2
                          else None
                      | _, _ => None
                      end
                    else classItems n' (CUnion acc a) rest1
                | _ => classItems n' (CUnion acc a) rest1
                end
            end
      end
  end.

Definition class (s : jsstring) : option (cset * jsstring) :=
  match s with
  | x :: rest =>
      if (x =? ch "^")%N then
        match classItems (S (length rest)) CNone rest with
        | Some (c, rest') => Some (CNot c, rest')
        | None => None
        end
      else classItems (S (length s)) CNone s
  | [] => None
  end.

(** A quantifier after an atom, with its optional lazy mark. *)
Definition quantifier (r : re) (s : jsstring) : re * jsstring :=
  let lazy (s : jsstring) :=
    match s with
    | x :: rest => if (x =? ch "?")%N then rest else s
    | [] => s
    end in
  match s with
  | x :: rest =>
      if (x =? ch "*")%N then (Star r, lazy rest)
      else if (x =? ch "+")%N then (Cat r (Star r), lazy rest)
      else if (x =? ch "?")%N then (Alt Eps r, lazy rest)
      else (r, s)
  | [] => (r, s)
  end.

Inductive level : Type := Disjunction | Alternative | Term.

Definition stripNonCapturing (s : jsstring) : jsstring :=
  match s with
  | q :: c :: rest =>
      if (q =? ch "?")%N && (c =? ch ":")%N then rest else s
  | _ => s
  end.

Fixpoint parse (n : nat) (l : level) (s : jsstring)
  : option (re * jsstring) :=
  match n with
  | O => None
  | S n' =>
      match l with
      | Disjunction =>
          match parse n' Alternative s with
          | Some (r, x :: rest) =>
              if (x =? ch "|")%N then
                match parse n' Disjunction rest with
                | Some (r', rest') => Some (Alt r r', rest')
                | None => None
                end
              else Some (r, x :: rest)
          | other => other
          end
      | Alternative =>
          match s with
          | [] => Some (Eps, s)
          | x :: _ =>
              if (x =? ch "|")%N || (x =? ch ")")%N then Some (Eps, s)
              else
                match parse n' Term s with
                | Some (r, rest) =>
                    match parse n' Alternative rest with
                    | Some (r', rest') => Some (Cat r r', rest')
                    | None => None
                    end
                | None => None
                end
          end
      | Term =>
          match s with
          | [] => None
          | x :: rest =>
              if (x =? ch "(")%N then
                match rest with
                | q :: c :: _ =>
                    if (q =? ch "?")%N && negb (c =? ch ":")%N then None
                    else
                      match parse n' Disjunction (stripNonCapturing rest) with
                      | Some (r, y :: rest') =>
                          if (y =? ch ")")%N then Some (quantifier r rest')
                          else None
                      | _ => None
                      end
                | _ =>
                    match parse n' Disjunction rest with
                    | Some (r, y :: rest') =>
                        if (y =? ch ")")%N then Some (quantifier r rest')
                        else None
                    | _ => None
                    end
                end
              else if (x =? ch "[")%N then
                match class rest with
                | Some (c, rest') => Some (quantifier (Chr c) rest')
                | None => None
                end
              else if (x =? ch "\")%N then
                match rest with
                | y :: rest' =>
                    match escape y with
                    | Some c => Some (quantifier (Chr c) rest')
                    | None => None
                    end
                | [] => None
                end
              else if (x =? ch ".")%N then Some (quantifier (Chr CDot) rest)
              else if isPunct x && negb ((x =? ch "-")%N || (x =? ch ",")%N
                        || (x =? ch ":")%N || (x =? ch "/")%N
                        || (x =? ch "=")%N || (x =? ch "!")%N
                        || (x =? ch "<")%N || (x =? ch ">")%N
                        || (x =? ch "@")%N || (x =? ch "#")%N
                        || (x =? ch "%")%N || (x =? ch "&")%N
                        || (x =? ch "'")%N || (x =? ch ";")%N
                        || (x =? ch "~")%N || (x =? ch "`")%N
                        || (x =? 34)%N)
                   then None
              else if (128 <=? x)%N then None
              else Some (quantifier (Chr (CRange x x)) rest)
          end
      end
  end.

(** [new RegExp(p, "i")] *)
Definition RegExp (p : jsstring) : option re :=
  match parse (4 * length p + 4) Disjunction p with
  | Some (r, []) => Some r
  | _ => None
  end.

End Regex.

(** ** The danger scan of [server.js] ([/api/danger]) *)

(** One entry of a rule's [toolRules]; [actions] is [null] for "any
    action". *)
Module ToolRule.
Record t : Type := mk {
  toolName : jsstring;
  actions : option (list jsstring)
}.
End ToolRule.

(** A rule of [danger-rules.json].  [patterns], [toolRules] and [label]
    may be missing. *)
Module Rule.
Record t : Type := mk {
  category : jsstring;
  severity : jsstring;
  label : option jsstring;
  patterns : option (list jsstring);
  toolRules : option (list ToolRule.t)
}.
End Rule.

(** [{...r, regexes, toolRules: r.toolRules || null}]: an array is truthy
    even when empty, so [toolRules] is the rule's own. *)
Module Compiled.
Record t : Type := mk {
  rule : Rule.t;
  regexes : list Regex.re
}.
Definition category (c : t) := Rule.category (rule c).
Definition severity (c : t) := Rule.severity (rule c).
Definition label (c : t) := Rule.label (rule c).
Definition toolRules (c : t) := Rule.toolRules (rule c).
End Compiled.

Module Hit.
Record t : Type := mk {
  msgId : jsval;
  command : jsstring;
  category : jsstring;
  severity : jsstring;
  label : option jsstring
}.
End Hit.

(** [xs.map(f)] where [f] may throw. *)
Fixpoint mapM {A B} (f : A -> option B) (xs : list A) : option (list B) :=
  match xs with
  | [] => Some []
  | x :: xs' =>
      match f x, mapM f xs' with
      | Some y, Some ys => Some (y :: ys)
      | _, _ => None
      end
  end.

(** [rules.map(r => ({...r, regexes: (r.patterns || []).map(p => new
    RegExp(p, "i")), ...}))] *)
Definition compileRule (r : Rule.t) : option Compiled.t :=
  match mapM Regex.RegExp (default [] (Rule.patterns r)) with
  | Some rxs => Some (Compiled.mk r rxs)
  | None => None
  end.

Definition compile (rules : list Rule.t) : option (list Compiled.t) :=
  mapM compileRule rules.

(** [a || d] where [d] is a value. *)
Definition or_default (a : jsval) (d : json) : json :=
  match a with
  | Some v => if truthy v then v else d
  | None => d
  end.

(** [tr.actions.includes(toolAction)]: the actions of a rule are strings. *)
Definition actionsInclude (acts : list jsstring) (toolAction : json) : bool :=
  match toolAction with
  | JStr a => existsb (str_eqb a) acts
  | _ => false
  end.

(** [tr.toolName === toolName && (tr.actions === null || (toolAction &&
    tr.actions.includes(toolAction)))] *)
Definition toolRuleMatches (tr : ToolRule.t) (toolName toolAction : json) : bool :=
  strict_eq (JStr (ToolRule.toolName tr)) toolName &&
  match ToolRule.actions tr with
  | None => true
  | Some acts => truthy toolAction && actionsInclude acts toolAction
  end.

(** [`${toolName}${toolAction ? ": " + toolAction : ""}`] *)
Definition toolCommand (toolName toolAction : json) : jsstring :=
  to_string toolName ++
  (if truthy toolAction then js ": " ++ to_string toolAction else []).

(** The loop over the tool-based rules (lines 265-278). *)
Definition toolHits (compiled : list Compiled.t) (msgId : jsval)
    (toolName toolAction : json) : list Hit.t :=
  flat_map (fun rule =>
    match Compiled.toolRules rule with
    | None => []
    | Some trs =>
        flat_map (fun tr =>
          if toolRuleMatches tr toolName toolAction then
            [Hit.mk msgId (toolCommand toolName toolAction)
               (Compiled.category rule) (Compiled.severity rule)
               (Compiled.label rule)]
          else []) trs
    end) compiled.

(** [walk]: every string of more than two code units in the tree, in
    visiting order. *)
Fixpoint walk (v : json) : list jsstring :=
  match v with
  | JStr s => if (2 <? length s)%nat then [s] else []
  | JArr items => flat_map walk items
  | JObj props => flat_map (fun kv => walk (snd kv)) props
  | _ => []
  end.

Definition isToolBased (rule : Compiled.t) : bool :=
  match Compiled.toolRules rule with
  | Some _ => true
  | None => false
  end.

(** The key kept in the set [matched]: [rule.category + s]. *)
Definition matchedKey (rule : Compiled.t) (s : jsstring) : jsstring :=
  Compiled.category rule ++ s.

(** One turn of the loop over the rules for the string [s] (lines
    292-308): [matched] and the (rule, string) pairs for which a hit has
    been pushed so far. *)
Definition tryRule (s : jsstring)
    (st : gset jsstring * list (Compiled.t * jsstring)) (rule : Compiled.t)
  : gset jsstring * list (Compiled.t * jsstring) :=
  if isToolBased rule then st
  else if bool_decide (matchedKey rule s ∈ st.1) then st
  else if existsb (fun rx => Regex.test rx s) (Compiled.regexes rule)
       then ({[ matchedKey rule s ]} ∪ st.1, st.2 ++ [(rule, s)])
       else st.

(** The loop over the collected strings (lines 290-309), from an empty
    [matched]: the pairs that gave a hit, in the order of the hits. *)
Definition patternMatches (compiled : list Compiled.t) (strings : list jsstring)
  : list (Compiled.t * jsstring) :=
  (foldl (fun st s => foldl (tryRule s) st compiled) (∅, []) strings).2.

(** [`${toolName || "?"}: ${s.substring(0, 200)}`] *)
Definition patternCommand (toolName : json) (s : jsstring) : jsstring :=
  to_string (or_default (Some toolName) (JStr (js "?")))
  ++ js ": " ++ substring0 200 s.

Definition patternHit (msgId : jsval) (toolName : json)
    (m : Compiled.t * jsstring) : Hit.t :=
  Hit.mk msgId (patternCommand toolName m.2)
    (Compiled.category m.1) (Compiled.severity m.1) (Compiled.label m.1).

Definition patternHits (compiled : list Compiled.t) (msgId : jsval)
    (toolName : json) (src : json) : list Hit.t :=
  map (patternHit msgId toolName) (patternMatches compiled (walk src)).

Definition isToolCall (block : json) : bool :=
  match prop "type" block with
  | Some t => strict_eq t (JStr (js "toolCall"))
  | None => false
  end.

(** [block.arguments || block.input] *)
Definition blockSrc (block : json) : jsval :=
  js_or (prop "arguments" block) (prop "input" block).

(** [block.name || ""] *)
Definition blockToolName (block : json) : json :=
  or_default (prop "name" block) (JStr []).

(** [src?.action || ""] *)
Definition blockToolAction (block : json) : json :=
  or_default (match blockSrc block with
              | Some src => prop "action" src
              | None => None
              end) (JStr []).

(** The body of the loop over [msg.content] for a block that is not
    [null] (lines 259-310): the hits it pushes. *)
Definition scanBlock (compiled : list Compiled.t) (msgId : jsval)
    (block : json) : list Hit.t :=
  if isToolCall block then
    toolHits compiled msgId (blockToolName block) (blockToolAction block)
    ++ match blockSrc block with
       | Some src =>
           if truthy src
           then patternHits compiled msgId (blockToolName block) src
           else []
       | None => []
       end
  else [].

(** The loop over [msg.content]: the hits pushed, and whether the loop
    ran to its end.  Reading [block.type] of a [null] block throws. *)
Fixpoint scanBlocks (compiled : list Compiled.t) (msgId : jsval)
    (blocks : list json) : list Hit.t * bool :=
  match blocks with
  | [] => ([], true)
  | JNull :: _ => ([], false)
  | block :: rest =>
      let r := scanBlocks compiled msgId rest in
      (scanBlock compiled msgId block ++ r.1, r.2)
  end.

(** The body of the loop over the lines for a decoded line [obj] (lines
    254-311).  Reading [obj.type] of [null] throws. *)
Definition scanLine (compiled : list Compiled.t) (obj : json)
  : list Hit.t * bool :=
  match obj with
  | JNull => ([], false)
  | _ =>
      match prop "type" obj with
      | Some (JStr t) =>
          if str_eqb t (js "message") then
            match prop "message" obj with
            | Some msg =>
                match prop "content" msg with
                | Some (JArr blocks) => scanBlocks compiled (prop "id" obj) blocks
                | _ => ([], true)
                end
            | None => ([], true)
            end
          else ([], true)
      | _ => ([], true)
      end
  end.

(** The hits of one session file (lines 247-313).  [objs] are the values
    [JSON.parse] returns for the lines of the file that are not blank and
    that decode, in file order.  An exception ends the loop over the lines
    in the [catch] of line 313; the hits pushed before it are kept. *)
Fixpoint scanSession (compiled : list Compiled.t) (objs : list json)
  : list Hit.t :=
  match objs with
  | [] => []
  | obj :: rest =>
      let r := scanLine compiled obj in
      r.1 ++ (if r.2 then scanSession compiled rest else [])
  end.

(** The scan of one session under the rules of the rule file; [None] when
    a pattern does not compile. *)
Definition dangerScan (rules : list Rule.t) (objs : list json)
  : option (list Hit.t) :=
  match compile rules with
  | Some compiled => Some (scanSession compiled objs)
  | None => None
  end.

(** ** [readSession] of [server.js] *)

Module Path.

Definition isAbsolute (p : jsstring) : bool :=
  match p with
  | c :: _ => (c =? 47)%N
  | [] => false
  end.

(** One segment of [normalizeString(path, false, "/")]: the segments
    kept so far, last first. *)
Definition normStep (kept : list jsstring) (seg : jsstring) : list jsstring :=
  if str_eqb seg [] || str_eqb seg (js ".") then kept
  else if str_eqb seg (js "..") then tail kept
  else seg :: kept.

Definition normalize (p : jsstring) : jsstring :=
  join (js "/") (rev (foldl normStep [] (split 47 p))).

(** POSIX [path.resolve(a, b)] in a process whose working directory is
    the absolute path [cwd]: the arguments are taken from the right
    until one is absolute. *)
Definition resolve (cwd a b : jsstring) : jsstring :=
  js "/" ++ normalize
    (if isAbsolute b then b
     else if isAbsolute a then a ++ js "/" ++ b
     else cwd ++ js "/" ++ a ++ js "/" ++ b).

End Path.

(** What a path names in the file system. *)
Inductive fsnode : Type :=
| File (content : jsstring)
| Dir.

Inductive readResult : Type :=
| Null
| Content (text : jsstring)
| Throws.

Section ReadSession.

Variable SESSIONS_DIR : jsstring.
Variable cwd : jsstring.
Variable fs : jsstring -> option fsnode.

Definition readSession (filename : jsstring) : readResult :=
  let fullPath := Path.resolve cwd SESSIONS_DIR filename in
  if negb (startsWith fullPath SESSIONS_DIR) then Null
  else
    match fs fullPath with
    | None => Null
    | Some (File text) => Content text
    | Some Dir => Throws
    end.

End ReadSession.

(** [p] is the directory [dir] or lies below it. *)
Definition insideDir (dir p : jsstring) : bool :=
  str_eqb p dir || startsWith p (dir ++ js "/").

(** ** The [App] component: [parseJSONL] *)

Module ParseError.
Record t : Type := mk {
  line : nat;
  raw : jsstring;
  error : jsstring
}.
End ParseError.

(** An element of [entries]: a decoded line, whose [_lineNumber] property
    has been set, or the synthetic entry of type [_parseError]. *)
Inductive SessionEntry : Type :=
| Decoded (obj : json) (_lineNumber : nat)
| ParseErrorEntry (_parseError : ParseError.t) (_lineNumber : nat).

Module ParseResult.
Record t : Type := mk {
  entries : list SessionEntry;
  parseErrors : list ParseError.t;
  totalLines : nat
}.
End ParseResult.

(** The marker appended to a line that is cut: the literal of line 34,
    which holds the three code units U+201A, U+00C4 and U+00B6 (an
    ellipsis read in another encoding). *)
Definition ellipsis : jsstring := [8218%N; 196%N; 182%N].

(** [line.length > 200 ? line.slice(0, 200) + ellipsis : line] *)
Definition truncateRaw (line : jsstring) : jsstring :=
  if (200 <? length line)%nat then substring0 200 line ++ ellipsis else line.

Section ParseJSONL.

(** [JSON.parse]: the value, or the message of the [SyntaxError]. *)
Variable JSON_parse : jsstring -> json + jsstring.

(** The message of the [TypeError] that setting a property on [null] or
    on a number, boolean or string raises in module (strict) code. *)
Variable propertySetError : json -> jsstring.

(** The [try] block of lines 28-30: [JSON.parse(line)], then
    [obj._lineNumber = i + 1]; the value pushed, or the message caught. *)
Definition decodeLine (line : jsstring) : json + jsstring :=
  match JSON_parse line with
  | inl (JObj ps) => inl (JObj ps)
  | inl (JArr xs) => inl (JArr xs)
  | inl v => inr (propertySetError v)
  | inr msg => inr msg
  end.

(** The [for] loop of lines 23-45 from index [i]. *)
Fixpoint parseLoop (i : nat) (lines : list jsstring) (r : ParseResult.t)
  : ParseResult.t :=
  match lines with
  | [] => r
  | l :: rest =>
      let line := trim l in
      if str_eqb line [] then parseLoop (S i) rest r
      else
        match decodeLine line with
        | inl obj =>
            parseLoop (S i) rest
              (ParseResult.mk
                 (ParseResult.entries r ++ [Decoded obj (i + 1)])
                 (ParseResult.parseErrors r)
                 (S (ParseResult.totalLines r)))
        | inr msg =>
            let err := ParseError.mk (i + 1) (truncateRaw line) msg in
            parseLoop (S i) rest
              (ParseResult.mk
                 (ParseResult.entries r ++ [ParseErrorEntry err (i + 1)])
                 (ParseResult.parseErrors r ++ [err])
                 (S (ParseResult.totalLines r)))
        end
  end.

Definition parseJSONL (text : jsstring) : ParseResult.t :=
  parseLoop 0 (split 10 text) (ParseResult.mk [] [] 0).

End ParseJSONL.

(** [e.type] and [e.id] *)
Definition entryType (e : SessionEntry) : jsval :=
  match e with
  | Decoded obj _ => prop "type" obj
  | ParseErrorEntry _ _ => Some (JStr (js "_parseError"))
  end.

Definition entryId (e : SessionEntry) : jsval :=
  match e with
  | Decoded obj _ => prop "id" obj
  | ParseErrorEntry _ _ => None
  end.

(** [e.type === 'message'] *)
Definition isMessage (e : SessionEntry) : bool :=
  match entryType e with
  | Some t => strict_eq t (JStr (js "message"))
  | None => false
  end.

(** [e.id === id] for a string [id] *)
Definition hasId (id : jsstring) (e : SessionEntry) : bool :=
  match entryId e with
  | Some v => strict_eq v (JStr id)
  | None => false
  end.

(** [msgs.findIndex(p)]: [None] stands for [-1]. *)
Fixpoint findIndex {A} (p : A -> bool) (l : list A) : option nat :=
  match l with
  | [] => None
  | x :: l' => if p x then Some O else option_map S (findIndex p l')
  end.

(** ** The [App] component: read progress

    A [Progress] object maps keys to progress entries, which are objects
    of their own: a shallow copy [{...prog}] shares them, and
    [newProg[pk].totalMsgs = total] changes the entry for every object
    that holds it.  So a progress object is the list of its keys in
    insertion order, each with the location of its entry, and the entries
    live in a heap.  (The keys are file names and session ids; a key that
    is an array index, which JavaScript enumerates before the others, is
    not modelled.) *)

Module ProgressEntry.
Record t : Type := mk {
  lastReadId : option jsstring;
  lastReadAt : option jsstring;
  totalMsgs : option Z;
  unreadCount : option Z;
  readAll : option bool;
  customLabel : option jsstring
}.
(** [{}] *)
Definition empty : t := mk None None None None None None.
Definition set_totalMsgs (n : Z) (e : t) : t :=
  mk (lastReadId e) (lastReadAt e) (Some n) (unreadCount e) (readAll e)
     (customLabel e).
Definition set_unreadCount (n : Z) (e : t) : t :=
  mk (lastReadId e) (lastReadAt e) (totalMsgs e) (Some n) (readAll e)
     (customLabel e).
(** [!e.lastReadId] *)
Definition noLastRead (e : t) : bool :=
  match lastReadId e with
  | Some (_ :: _) => false
  | _ => true
  end.
End ProgressEntry.

Abbreviation loc := nat.
Abbreviation Heap := (list ProgressEntry.t).
Abbreviation Progress := (list (jsstring * loc)).

(** [o[k]] *)
Definition obj_get {V} (k : jsstring) (o : list (jsstring * V)) : option V :=
  lookup_prop k o.

(** [o[k] = v]: a key already present keeps its place. *)
Fixpoint obj_set {V} (k : jsstring) (v : V) (o : list (jsstring * V))
  : list (jsstring * V) :=
  match o with
  | [] => [(k, v)]
  | (k', v') :: o' =>
      if str_eqb k k' then (k, v) :: o' else (k', v') :: obj_set k v o'
  end.

(** [delete o[k]] *)
Definition obj_delete {V} (k : jsstring) (o : list (jsstring * V))
  : list (jsstring * V) :=
  List.filter (fun kv => negb (str_eqb k kv.1)) o.

(** [Object.assign(target, source)] *)
Definition obj_assign {V} (target source : list (jsstring * V))
  : list (jsstring * V) :=
  foldl (fun t kv => obj_set kv.1 kv.2 t) target source.

(** [if (!p[k]) p[k] = {}]: the object, the heap and the location of
    [p[k]] afterwards. *)
Definition ensure (k : jsstring) (p : Progress) (h : Heap)
  : Progress * Heap * loc :=
  match obj_get k p with
  | Some l => (p, h, l)
  | None => (obj_set k (length h) p, h ++ [ProgressEntry.empty], length h)
  end.

(** An element of the answer of [/api/sessions]. *)
Module SessionInfo.
Record t : Type := mk {
  filename : jsstring;
  sessionId : option jsstring
}.
(** [s.sessionId || s.filename] *)
Definition key (s : t) : jsstring :=
  match sessionId s with
  | Some (c :: sid) => c :: sid
  | _ => filename s
  end.
End SessionInfo.

(** [counts[f] || 0] *)
Definition countOf (counts : list (jsstring * Z)) (f : jsstring) : Z :=
  default 0%Z (obj_get f counts).

(** [sessData.forEach(s => { if (s.sessionId) sidMap[s.filename] =
    s.sessionId; })] *)
Definition buildSidMap (sessData : list SessionInfo.t)
  : list (jsstring * jsstring) :=
  foldl (fun m s =>
           match SessionInfo.sessionId s with
           | Some (c :: sid) => obj_set (SessionInfo.filename s) (c :: sid) m
           | _ => m
           end) [] sessData.

(** [key.endsWith('.jsonl') || key.includes('.deleted.')] *)
Definition isLegacyKey (key : jsstring) : bool :=
  endsWith key (js ".jsonl") || includes key (js ".deleted.").

(** One turn of the migration loop (lines 123-131) on [migratedProg]. *)
Definition migrateKey (sidMap : list (jsstring * jsstring))
    (migratedProg : Progress) (kv : jsstring * loc) : Progress :=
  if isLegacyKey kv.1 then
    obj_delete kv.1
      match obj_get kv.1 sidMap with
      | Some (c :: sid) =>
          match obj_get (c :: sid) migratedProg with
          | Some _ => migratedProg
          | None => obj_set (c :: sid) kv.2 migratedProg
          end
      | _ => migratedProg
      end
  else migratedProg.

(** Lines 118-131: [migratedProg] after the loop over
    [Object.entries(prog)]. *)
Definition migrateProgress (prog : Progress) (sessData : list SessionInfo.t)
  : Progress :=
  foldl (migrateKey (buildSidMap sessData)) prog prog.

(** The part of the [sessData.map] callback of the initial load that
    touches the progress (lines 135-139). *)
Definition countRow (counts : list (jsstring * Z)) (st : Progress * Heap)
    (s : SessionInfo.t) : Progress * Heap :=
  let total := countOf counts (SessionInfo.filename s) in
  let '(p, h, l) := ensure (SessionInfo.key s) st.1 st.2 in
  let h := alter (ProgressEntry.set_totalMsgs total) l h in
  match h !! l with
  | Some e =>
      if ProgressEntry.noLastRead e
      then (p, alter (ProgressEntry.set_unreadCount total) l h)
      else (p, h)
  | None => (p, h)
  end.

(** The progress state set by the initial load (lines 117-158): the
    object [prog] after [Object.assign(prog, migratedProg)], and the
    heap. *)
Definition initialLoad (prog : Progress) (h : Heap)
    (sessData : list SessionInfo.t) (counts : list (jsstring * Z))
  : Progress * Heap :=
  let st := foldl (countRow counts) (migrateProgress prog sessData, h) sessData in
  (obj_assign prog st.1, st.2).

(** The part of the [sessData.map] callback of the change handler that
    touches the progress (lines 188-196). *)
Definition recomputeRow (counts : list (jsstring * Z)) (st : Progress * Heap)
    (s : SessionInfo.t) : Progress * Heap :=
  let total := countOf counts (SessionInfo.filename s) in
  let pk := SessionInfo.key s in
  let oldTotal :=
    default 0%Z (obj_get pk st.1 ≫= fun l => st.2 !! l ≫= ProgressEntry.totalMsgs) in
  let '(p, h, l) := ensure pk st.1 st.2 in
  let h := alter (ProgressEntry.set_totalMsgs total) l h in
  match h !! l with
  | Some e =>
      if ProgressEntry.noLastRead e
      then (p, alter (ProgressEntry.set_unreadCount total) l h)
      else
        let unread := default 0%Z (ProgressEntry.unreadCount e) in
        (p, alter (ProgressEntry.set_unreadCount
                     (Z.max 0 (total - (oldTotal - unread)))) l h)
  | None => (p, h)
  end.

(** The progress state set by the change handler for the file [filename]
    (lines 182-232). *)
Definition sseRefresh (progress : Progress) (h : Heap)
    (sessData : list SessionInfo.t) (counts : list (jsstring * Z))
    (filename : jsstring) : Progress * Heap :=
  let st := foldl (recomputeRow counts) (progress, h) sessData in
  let pk := default filename (obj_get filename (buildSidMap sessData)) in
  let '(p, h, l) := ensure pk st.1 st.2 in
  (p, alter (ProgressEntry.set_totalMsgs (countOf counts filename)) l h).

Module SessionRow.
Record t : Type := mk {
  Filename : jsstring;
  SessionId : jsstring
}.
End SessionRow.

(** [row?.SessionId || filename] *)
Definition rowKey (row : option SessionRow.t) (filename : jsstring) : jsstring :=
  match row with
  | Some r =>
      match SessionRow.SessionId r with
      | [] => filename
      | sid => sid
      end
  | None => filename
  end.

(** [msgs.length - idx - 1], or [msgs.length] when [idx === -1] *)
Definition unreadAfter (id : jsstring) (msgs : list SessionEntry) : Z :=
  match findIndex (hasId id) msgs with
  | None => Z.of_nat (length msgs)
  | Some idx => Z.of_nat (length msgs) - Z.of_nat idx - 1
  end.

(** [loadSessionData] once the text is fetched and parsed into [entries]
    (lines 253-270): the progress state it sets. *)
Definition loadSessionData (filename : jsstring) (row : option SessionRow.t)
    (prog : Progress) (h : Heap) (entries : list SessionEntry)
  : Progress * Heap :=
  let pk := rowKey row filename in
  let msgs := List.filter isMessage entries in
  let '(p, h, l) := ensure pk prog h in
  let h := alter (ProgressEntry.set_totalMsgs (Z.of_nat (length msgs))) l h in
  match h !! l ≫= ProgressEntry.lastReadId with
  | Some (c :: lastId) =>
      (p, alter (ProgressEntry.set_unreadCount (unreadAfter (c :: lastId) msgs)) l h)
  | _ =>
      (p, alter (ProgressEntry.set_unreadCount (Z.of_nat (length msgs))) l h)
  end.

(** [sessions.find(r => r.Filename === filename)] *)
Definition findRow (sessions : list SessionRow.t) (filename : jsstring)
  : option SessionRow.t :=
  List.find (fun r => str_eqb (SessionRow.Filename r) filename) sessions.

(** [handleMarkRead] (lines 287-307): the progress state it sets; [now]
    is [new Date().toISOString()]. *)
Definition handleMarkRead (dangerOnly : bool) (sessions : list SessionRow.t)
    (currentEntries : list SessionEntry) (progress : Progress) (h : Heap)
    (now : jsstring) (filename messageId : jsstring) : Progress * Heap :=
  if dangerOnly then (progress, h)
  else
    let pk := rowKey (findRow sessions filename) filename in
    let msgs := List.filter isMessage currentEntries in
    let isLast :=
      match last msgs with
      | Some lastMsg => hasId messageId lastMsg
      | None => false
      end in
    let unread := unreadAfter messageId msgs in
    let old := default ProgressEntry.empty (obj_get pk progress ≫= fun l => h !! l) in
    (obj_set pk (length h) progress,
     h ++ [ProgressEntry.mk (Some messageId) (Some now)
             (Some (Z.of_nat (length msgs))) (Some unread) (Some isLast)
             (ProgressEntry.customLabel old)]).

(** ** What the statements below speak of *)

(** The lines of a text with their 0-based index in [lines]. *)
Fixpoint numberFrom (i : nat) (lines : list jsstring) : list (nat * jsstring) :=
  match lines with
  | [] => []
  | l :: rest => (i, l) :: numberFrom (S i) rest
  end.

(** A line is blank when nothing but white space is on it. *)
Definition nonBlank (l : jsstring) : bool := negb (str_eqb (trim l) []).

(** The error carried by a parse-error entry. *)
Definition entryError (e : SessionEntry) : option ParseError.t :=
  match e with
  | ParseErrorEntry err _ => Some err
  | Decoded _ _ => None
  end.

(** An object or an array: a value on which a property can be set. *)
Definition isObjectValue (v : json) : bool :=
  match v with
  | JObj _ | JArr _ => true
  | _ => false
  end.

Section LineEntry.

Variable JSON_parse : jsstring -> json + jsstring.
Variable propertySetError : json -> jsstring.

(** The parse-error entry of the non-blank line [l] at index [i] for
    the message [msg]: the 1-based line number, the line (trimmed), cut
    after 200 code units and then marked with the three code units
    U+201A, U+00C4 and U+00B6 when it is longer, and the message. *)
Definition errorEntry (il : nat * jsstring) (msg : jsstring) : SessionEntry :=
  let line := trim il.2 in
  ParseErrorEntry
    (ParseError.mk (S il.1)
       (if decide (length line <= 200) then line
        else take 200 line ++ [8218%N; 196%N; 182%N])
       msg)
    (S il.1).

(** The one entry of the non-blank line [l] at index [i]: when
    [JSON.parse] decodes the trimmed line to an object or an array, the
    decoded value with the 1-based line number; when it decodes it to
    [null], a number, a boolean or a string, the parse-error entry with
    the message of the error of setting a property on that value; when
    it fails, the parse-error entry with the message of its error. *)
Definition lineEntry (il : nat * jsstring) : SessionEntry :=
  match JSON_parse (trim il.2) with
  | inl v =>
      if isObjectValue v then Decoded v (S il.1)
      else errorEntry il (propertySetError v)
  | inr msg => errorEntry il msg
  end.

End LineEntry.

(** [new RegExp(p, "i").test(s)]; [None] when the pattern is outside the
    fragment. *)
Definition testPattern (p s : jsstring) : option bool :=
  (fun r => Regex.test r s) <$> Regex.RegExp p.

(** The (rule, string) pairs for which the block [block] gets a
    pattern-based hit: none unless its argument payload is truthy. *)
Definition blockPatternMatches (compiled : list Compiled.t) (block : json)
  : list (Compiled.t * jsstring) :=
  match blockSrc block with
  | Some src => if truthy src then patternMatches compiled (walk src) else []
  | None => []
  end.




(** The rule of the end-to-end scenario and a message with one block per
    argument object of [args], each a call of [exec] with the payload
    under the property [field]. *)
Definition rmRule : Rule.t :=
  Rule.mk (js "destructive-fs") (js "critical") None
    (Some [js "rm\s+-[a-zA-Z]*r"]) None.

Definition execBlock (field : string) (args : json) : json :=
  JObj [(js "type", JStr (js "toolCall")); (js "name", JStr (js "exec"));
        (js field, args)].

Definition assistantMessage (id : json) (blocks : list json) : json :=
  JObj [(js "type", JStr (js "message")); (js "id", id);
        (js "message", JObj [(js "role", JStr (js "assistant"));
                             (js "content", JArr blocks)])].

Definition rmCommand : json := JObj [(js "command", JStr (js "rm -rf /tmp/x"))].

Definition rmCompiled : list Compiled.t := default [] (compile [rmRule]).

Definition rmHit (id : jsval) : Hit.t :=
  Hit.mk id (js "exec: rm -rf /tmp/x") (js "destructive-fs") (js "critical") None.


(** The action argument of a block: the [action] property of its
    argument payload, when there is one and it is not an empty (falsy)
    value. *)
Definition blockAction (block : json) : option json :=
  match blockSrc block with
  | Some src =>
      match prop "action" src with
      | Some a => if truthy a then Some a else None
      | None => None
      end
  | None => None
  end.

(** The pair [tr] of a tool-based rule applies to [block]: the names are
    equal and the actions are the wildcard [null] or contain the action
    of the block. *)
Definition toolRuleApplies (tr : ToolRule.t) (block : json) : Prop :=
  match blockToolName block with
  | JStr n => n = ToolRule.toolName tr
  | _ => False
  end /\
  match ToolRule.actions tr with
  | None => True
  | Some acts =>
      match blockAction block with
      | Some (JStr a) => a ∈ acts
      | _ => False
      end
  end.

#[global] Instance toolRuleApplies_dec tr block : Decision (toolRuleApplies tr block).
Proof.
  unfold toolRuleApplies.
  destruct (blockToolName block); destruct (ToolRule.actions tr);
    try destruct (blockAction block) as [[]|]; apply _.
Defined.

(** The tool name alone when the block has no action, else the name, a
    colon and the action. *)
Definition toolHitCommand (block : json) : jsstring :=
  match blockAction block with
  | None => to_string (blockToolName block)
  | Some a => to_string (blockToolName block) ++ js ": " ++ to_string a
  end.

(** The hits that the tool-based rules owe to a block: one for each pair
    that applies, in the order of the rules and of their pairs. *)
Definition toolRuleHits (compiled : list Compiled.t) (msgId : jsval)
    (block : json) : list Hit.t :=
  flat_map (fun rule =>
    flat_map (fun tr =>
      if decide (toolRuleApplies tr block)
      then [Hit.mk msgId (toolHitCommand block) (Compiled.category rule)
              (Compiled.severity rule) (Compiled.label rule)]
      else [])
      (default [] (Compiled.toolRules rule))) compiled.

(** The name shown for a pattern-based hit: the tool name, or a question
    mark when the block has none. *)
Definition toolLabel (block : json) : jsstring :=
  match prop "name" block with
  | Some n => if truthy n then to_string n else js "?"
  | None => js "?"
  end.

(** A rule of the bundled kind for surveillance tools, with a wildcard
    pair and a pair with two actions. *)
Definition surveillanceRule : Rule.t :=
  Rule.mk (js "surveillance") (js "warning") (Some (js "Surveillance")) None
    (Some [ToolRule.mk (js "camera") None;
           ToolRule.mk (js "browser") (Some [js "screenshot"; js "snapshot"])]).

Definition surveillanceCompiled : list Compiled.t :=
  default [] (compile [surveillanceRule]).

(** A call of the camera tool with no argument payload at all, and a
    screenshot taken with the browser tool. *)
Definition cameraBlock : json :=
  JObj [(js "type", JStr (js "toolCall")); (js "name", JStr (js "camera"))].


(** The messages strictly after the first message whose id is [id], in
    file order; [None] when no message has that id. *)
Fixpoint messagesAfter (id : jsstring) (msgs : list SessionEntry)
  : option (list SessionEntry) :=
  match msgs with
  | [] => None
  | m :: rest => if hasId id m then Some rest else messagesAfter id rest
  end.

(** A decoded message line with the id [id]. *)
Definition messageEntry (id : string) (n : nat) : SessionEntry :=
  Decoded (JObj [(js "type", JStr (js "message")); (js "id", JStr (js id))]) n.

(** A session header and five messages. *)
Definition fiveMessages : list SessionEntry :=
  [Decoded (JObj [(js "type", JStr (js "session")); (js "id", JStr (js "s1"))]) 1;
   messageEntry "m1" 2; messageEntry "m2" 3; messageEntry "m3" 4;
   messageEntry "m4" 5; messageEntry "m5" 6].

(** The entry of a session of three messages marked read to its end. *)
Definition fullyRead : ProgressEntry.t :=
  ProgressEntry.mk (Some (js "m3")) (Some (js "2026-01-01T00:00:00.000Z"))
    (Some 3%Z) (Some 0%Z) (Some true) None.

(** The entry of a session of five messages read up to the second. *)
Definition partlyRead : ProgressEntry.t :=
  ProgressEntry.mk (Some (js "m2")) (Some (js "2026-01-01T00:00:00.000Z"))
    (Some 5%Z) (Some 3%Z) (Some false) (Some (js "mine")).

(** A session header and six messages: three more than [fullyRead] has
    seen. *)
Definition sixMessages : list SessionEntry :=
  [Decoded (JObj [(js "type", JStr (js "session")); (js "id", JStr (js "s1"))]) 1;
   messageEntry "m1" 2; messageEntry "m2" 3; messageEntry "m3" 4;
   messageEntry "m4" 5; messageEntry "m5" 6; messageEntry "m6" 7].

(** A file system with one file next to the directory of the sessions. *)
Definition siblingFs (p : jsstring) : option fsnode :=
  if str_eqb p (js "/data/sessions-old/secret.jsonl")
  then Some (File (js "top secret"))
  else if str_eqb p (js "/data/sessions") then Some Dir
  else None.

(** The key under which a recorded pair is kept in [matched]. *)
Definition keyOf (m : Compiled.t * jsstring) : jsstring := matchedKey m.1 m.2.

(** What holds of [matched] and of the pairs recorded at every point of
    the loop over the strings [strings]: [matched] has the keys of the
    recorded pairs, no key is recorded twice, and a recorded pair is a
    pattern-based rule with a collected string that it matches. *)
Record loopInv (compiled : list Compiled.t) (strings : list jsstring)
    (st : gset jsstring * list (Compiled.t * jsstring)) : Prop := {
  inv_matched : forall k, k ∈ st.1 <-> k ∈ map keyOf st.2;
  inv_nodup : NoDup (map keyOf st.2);
  inv_sound : forall m, m ∈ st.2 ->
    m.1 ∈ compiled /\ isToolBased m.1 = false /\ m.2 ∈ strings /\
    existsb (fun rx => Regex.test rx m.2) (Compiled.regexes m.1) = true
}.

(** ** The danger scan: lines, blocks and the strings of a tree *)

(** The content blocks of a decoded line that the scan goes through:
    those of a line of type [message] whose message has a [content]
    array; no other line has any. *)
Definition messageBlocks (obj : json) : option (list json) :=
  match prop "type" obj with
  | Some (JStr t) =>
      if str_eqb t (js "message") then
        match prop "message" obj with
        | Some msg =>
            match prop "content" msg with
            | Some (JArr blocks) => Some blocks
            | _ => None
            end
        | None => None
        end
      else None
  | _ => None
  end.

Definition isNull (v : json) : bool :=
  match v with
  | JNull => true
  | _ => false
  end.

(** The scan of the line [obj] runs to its end: the line is not [null]
    and no block of its message is [null]. *)
Definition lineCompletes (obj : json) : bool :=
  negb (isNull obj) &&
  match messageBlocks obj with
  | Some blocks => forallb (fun b => negb (isNull b)) blocks
  | None => true
  end.

(** The string [s] is a string value somewhere in the tree [v]: [v]
    itself, or inside an element of an array or a property value of an
    object, at any depth. *)
Fixpoint occursIn (s : jsstring) (v : json) : Prop :=
  match v with
  | JStr t => s = t
  | JArr items =>
      (fix any (l : list json) : Prop :=
         match l with
         | [] => False
         | x :: l' => occursIn s x \/ any l'
         end) items
  | JObj props =>
      (fix any (l : list (jsstring * json)) : Prop :=
         match l with
         | [] => False
         | kv :: l' => occursIn s kv.2 \/ any l'
         end) props
  | _ => False
  end.

(** ** Line numbers of entries, and the message counts of [/api/counts] *)

(** [e._lineNumber] *)
Definition entryLine (e : SessionEntry) : nat :=
  match e with
  | Decoded _ n => n
  | ParseErrorEntry _ n => n
  end.

Definition isDecoded (e : SessionEntry) : bool :=
  match e with
  | Decoded _ _ => true
  | ParseErrorEntry _ _ => false
  end.

Section CountMessages.

Variable JSON_parse : jsstring -> json + jsstring.

(** The body of the loop of [/api/counts] for one line (lines 213-217 of
    [server.js]): whether the line is counted.  The line is parsed as it
    is, not trimmed; reading [obj.type] of [null] throws inside the
    [try] and the line is not counted. *)
Definition countsLine (line : jsstring) : bool :=
  if str_eqb (trim line) [] then false
  else
    match JSON_parse line with
    | inl obj =>
        match prop "type" obj with
        | Some t => strict_eq t (JStr (js "message"))
        | None => false
        end
    | inr _ => false
    end.

(** [counts[f]] for a file of content [content] (lines 209-219): the
    loop over the lines adds one to [total] for each counted line. *)
Definition countMessages (content : jsstring) : Z :=
  foldl (fun total line => if countsLine line then (total + 1)%Z else total)
    0%Z (split 10 content).

End CountMessages.

(** The text of a line that holds a message object with nothing but
    its type, and a stand-in for [JSON.parse] that decodes that text,
    [{}] and [null], with white space around them, and nothing else. *)
Definition messageLine : jsstring :=
  js "{" ++ [34%N] ++ js "type" ++ [34%N] ++ js ":" ++ [34%N] ++ js "message"
  ++ [34%N] ++ js "}".

Definition sampleParse (text : jsstring) : json + jsstring :=
  if str_eqb (trim text) messageLine
  then inl (JObj [(js "type", JStr (js "message"))])
  else if str_eqb (trim text) (js "{}") then inl (JObj [])
  else if str_eqb (trim text) (js "null") then inl JNull
  else inr (js "Unexpected token").

(** A file of four lines: a message, a blank line, 250 times the
    letter [x], and [null]. *)
Definition longText : jsstring :=
  messageLine ++ [10%N] ++ js "  " ++ [10%N] ++ repeat 120%N 250 ++ [10%N]
  ++ js "null".

(** A file of three lines: a message, a line that is not JSON and a
    second message, indented. *)
Definition sampleText : jsstring :=
  messageLine ++ [10%N] ++ js "oops" ++ [10%N] ++ js "  " ++ messageLine.

(** ** Paths under the directory of the sessions *)

(** A name of a file or directory: not empty, not [.] or [..], and
    without a slash. *)
Definition properSegment (seg : jsstring) : bool :=
  negb (str_eqb seg []) && negb (str_eqb seg (js "."))
  && negb (str_eqb seg (js "..")) && forallb (fun c => negb (c =? 47)%N) seg.

(** The absolute path with the segments [segs]. *)
Definition absPath (segs : list jsstring) : jsstring :=
  js "/" ++ join (js "/") segs.

(** What [readSession] does once the path has passed its test. *)
Definition readFile (fs : jsstring -> option fsnode) (path : jsstring)
  : readResult :=
  match fs path with
  | None => Null
  | Some (File text) => Content text
  | Some Dir => Throws
  end.

(** ** The [App] component: [handleRename], and reading the progress *)




(** [progress[k]]: the entry under the key [k] in a progress state. *)
Definition entryOf (st : Progress * Heap) (k : jsstring)
  : option ProgressEntry.t :=
  obj_get k st.1 ≫= fun l => st.2 !! l.

(** Every key of the progress object has its entry in the heap. *)
Definition progressValid (st : Progress * Heap) : Prop :=
  forall k l, obj_get k st.1 = Some l -> l < length st.2.

(** [progressKey] of [utils]: [row?.SessionId || row?.Filename || ''] *)
Definition progressKey (row : option SessionRow.t) : jsstring :=
  match row with
  | Some r =>
      match SessionRow.SessionId r with
      | [] => SessionRow.Filename r
      | sid => sid
      end
  | None => []
  end.

(** ** [utils]: the CSV of descriptive labels *)

(** The loop of [parseCSVLine]: the fields pushed so far, the field
    being read and whether a quote is open.  [for (const ch of line)]
    goes by code points; the double quote and the comma are single code
    units and a code point is appended whole, so going by code units
    gives the same. *)
Fixpoint csvLoop (line : jsstring) (r : list jsstring) (cur : jsstring)
    (q : bool) : list jsstring :=
  match line with
  | [] => r ++ [trim cur]
  | ch :: rest =>
      if (ch =? 34)%N then csvLoop rest r cur (negb q)
      else if (ch =? 44)%N && negb q then csvLoop rest (r ++ [trim cur]) [] q
      else csvLoop rest r (cur ++ [ch]) q
  end.

Definition parseCSVLine (line : jsstring) : list jsstring :=
  csvLoop line [] [] false.





(** ** [utils]: the filters of the session list *)

(** A row of the session list with the fields the filters read. *)
Module ListRow.
Record t : Type := mk {
  row : SessionRow.t;
  Disk : jsstring;
  Reason : jsstring
}.
End ListRow.

Module Filters.
Record t : Type := mk {
  read : jsstring;
  lifecycle : list jsstring;
  dangerOnly : bool
}.
End Filters.

(** The badge counters of the session list. *)
Module Counts.
Record t : Type := mk {
  all : nat; unread : nat; partial : nat; done : nat;
  active : nat; orphan : nat; deleted : nat; danger : nat
}.
Definition zero : t := mk 0 0 0 0 0 0 0 0.
End Counts.

(** [!!e.readAll] *)
Definition readAllSet (e : ProgressEntry.t) : bool :=
  match ProgressEntry.readAll e with
  | Some true => true
  | _ => false
  end.

Section SessionFilters.
(** [String.prototype.toLowerCase] and [toUpperCase], left open. *)
Variables toLowerCase toUpperCase : jsstring -> jsstring.
Variable st : Progress * Heap.
Variable dangerData : list (jsstring * list Hit.t).

(** [progress[progressKey(row)]] *)
Definition rowProgress (r : ListRow.t) : option ProgressEntry.t :=
  entryOf st (progressKey (Some (ListRow.row r))).

(** [reason.includes('deleted') || (row.Disk || '').toUpperCase() === 'DEL'] *)
Definition isDeletedRow (r : ListRow.t) : bool :=
  includes (toLowerCase (ListRow.Reason r)) (js "deleted")
  || str_eqb (toUpperCase (ListRow.Disk r)) (js "DEL").

(** [!!dangerData[row.Filename]]: an array is truthy. *)
Definition hasDanger (r : ListRow.t) : bool :=
  bool_decide (is_Some (obj_get (SessionRow.Filename (ListRow.row r)) dangerData)).

(** [matchesFilter] *)
Definition matchesFilter (r : ListRow.t) (filterKey : jsstring) : bool :=
  if str_eqb filterKey (js "all") then true
  else
    let reason := toLowerCase (ListRow.Reason r) in
    let p := rowProgress r in
    if str_eqb filterKey (js "unread") then
      match p with
      | None => true
      | Some e => ProgressEntry.noLastRead e
      end
    else if str_eqb filterKey (js "partial") then
      match p with
      | None => false
      | Some e => negb (ProgressEntry.noLastRead e) && negb (readAllSet e)
      end
    else if str_eqb filterKey (js "done") then
      match p with
      | None => false
      | Some e => readAllSet e
      end
    else if str_eqb filterKey (js "active") then startsWith reason (js "active")
    else if str_eqb filterKey (js "orphan") then includes reason (js "orphan")
    else if str_eqb filterKey (js "deleted") then isDeletedRow r
    else if str_eqb filterKey (js "danger") then hasDanger r
    else true.

(** [matchesFilters] *)
Definition matchesFilters (r : ListRow.t) (filters : Filters.t) : bool :=
  let reason := toLowerCase (ListRow.Reason r) in
  let p := rowProgress r in
  if str_eqb (Filters.read filters) (js "unread")
     && match p with
        | None => false
        | Some e => negb (ProgressEntry.noLastRead e)
        end
  then false
  else if str_eqb (Filters.read filters) (js "partial")
          && match p with
             | None => true
             | Some e => ProgressEntry.noLastRead e || readAllSet e
             end
  then false
  else if str_eqb (Filters.read filters) (js "done")
          && match p with
             | None => true
             | Some e => negb (readAllSet e)
             end
  then false
  else if (0 <? length (Filters.lifecycle filters))
          && negb
               (existsb (str_eqb (js "active")) (Filters.lifecycle filters)
                  && startsWith reason (js "active")
                || existsb (str_eqb (js "orphan")) (Filters.lifecycle filters)
                   && includes reason (js "orphan")
                || existsb (str_eqb (js "deleted")) (Filters.lifecycle filters)
                   && isDeletedRow r)
  then false
  else if Filters.dangerOnly filters && negb (hasDanger r) then false
  else true.

(** The callback of [sessions.forEach] that counts a row for the
    badges of the session list. *)
Definition countBadges (c : Counts.t) (r : ListRow.t) : Counts.t :=
  let reason := toLowerCase (ListRow.Reason r) in
  let p := rowProgress r in
  let inc (b : bool) (n : nat) := if b then S n else n in
  let isUnread := match p with
                  | None => true
                  | Some e => ProgressEntry.noLastRead e
                  end in
  let isDone := negb isUnread
                && match p with
                   | None => false
                   | Some e => readAllSet e
                   end in
  Counts.mk (S (Counts.all c))
    (inc isUnread (Counts.unread c))
    (inc (negb isUnread && negb isDone) (Counts.partial c))
    (inc isDone (Counts.done c))
    (inc (startsWith reason (js "active")) (Counts.active c))
    (inc (includes reason (js "orphan")) (Counts.orphan c))
    (inc (isDeletedRow r) (Counts.deleted c))
    (inc (hasDanger r) (Counts.danger c)).

Definition badgeCounts (sessions : list ListRow.t) : Counts.t :=
  foldl countBadges Counts.zero sessions.

End SessionFilters.


(** ** The status of a session file ([server.js]) *)

(** A value of the map that [getSessionMeta] builds; [resolveStatus]
    reads its [label]. *)
Module SessionMeta.
Record t : Type := mk {
  label : json;
  key : jsstring
}.
End SessionMeta.

Inductive status : Type := StatusDeleted | StatusActive | StatusOrphan.

(** [s.replace(/\.jsonl$/, "")] *)
Definition stripJsonl (s : jsstring) : jsstring :=
  if endsWith s (js ".jsonl") then take (length s - 6) s else s.

Definition isDigit (c : N) : bool := ((48 <=? c) && (c <=? 57))%N.

(** Whether all of [s] is [.deleted.] and then one digit or more. *)
Definition isDeletedSuffix (s : jsstring) : bool :=
  startsWith s (js ".deleted.")
  && match drop 9 s with
     | [] => false
     | digits => forallb isDigit digits
     end.

(** [s.replace(/\.deleted\.\d+$/, "")]: the text before the first place
    from which the pattern matches up to the end. *)
Fixpoint stripDeleted (s : jsstring) : jsstring :=
  if isDeletedSuffix s then []
  else match s with
       | [] => []
       | c :: s' => c :: stripDeleted s'
       end.

(** [m.label || ""] *)
Definition labelOr (m : SessionMeta.t) : json :=
  if truthy (SessionMeta.label m) then SessionMeta.label m else JStr [].

(** [base.startsWith(sid) || sid.startsWith(base)] *)
Definition related (base : jsstring) (entry : jsstring * SessionMeta.t) : bool :=
  startsWith base entry.1 || startsWith entry.1 base.

(** The names of the members that a plain object inherits from
    [Object.prototype].  Each of them reads as a function, and
    [__proto__] as the prototype itself: a truthy value that has no
    [label]. *)
Definition objectPrototypeMembers : list jsstring :=
  [js "constructor"; js "__defineGetter__"; js "__defineSetter__";
   js "hasOwnProperty"; js "__lookupGetter__"; js "__lookupSetter__";
   js "isPrototypeOf"; js "propertyIsEnumerable"; js "toString";
   js "valueOf"; js "__proto__"; js "toLocaleString"].

Definition inheritsMember (k : jsstring) : bool :=
  existsb (str_eqb k) objectPrototypeMembers.

(** [resolveStatus]: the status and the label.  [metaById] is a plain
    object, as [getSessionMeta] builds it from [{}]: the list holds its
    own properties in the order of [Object.entries], and its prototype
    is [Object.prototype].  [metaById[base]] reads an own property or,
    when there is none under that name, an inherited member. *)
Definition resolveStatus (filename : jsstring)
    (metaById : list (jsstring * SessionMeta.t)) : status * json :=
  if includes filename (js ".deleted.") then (StatusDeleted, JStr [])
  else
    let base := stripDeleted (stripJsonl filename) in
    match obj_get base metaById with
    | Some meta => (StatusActive, labelOr meta)
    | None =>
        if inheritsMember base then (StatusActive, JStr [])
        else
          match List.find (related base) metaById with
          | Some (_, m) => (StatusActive, labelOr m)
          | None => (StatusOrphan, JStr [])
          end
    end.

(** * Properties *)

(** ** The entry parser *)

Lemma truncateRaw_spec (line : jsstring) :
  truncateRaw line =
  if decide (length line <= 200) then line else take 200 line ++ ellipsis.
Proof.
  unfold truncateRaw, substring0.
  destruct (200 <? length line)%nat eqn:E.
  - apply Nat.ltb_lt in E. destruct (decide _); [lia | reflexivity].
  - apply Nat.ltb_ge in E. destruct (decide _); [reflexivity | lia].
Qed.

Lemma lineEntry_unfold JSON_parse perr (i : nat) (l : jsstring) :
  lineEntry JSON_parse perr (i, l) =
  match decodeLine JSON_parse perr (trim l) with
  | inl obj => Decoded obj (S i)
  | inr msg =>
      ParseErrorEntry (ParseError.mk (S i) (truncateRaw (trim l)) msg) (S i)
  end.
Proof.
  unfold lineEntry, errorEntry, decodeLine. cbn [fst snd].
  rewrite truncateRaw_spec.
  destruct (JSON_parse (trim l)) as [[]|]; reflexivity.
Qed.

Lemma lineEntry_decodeLine JSON_parse perr (il : nat * jsstring) :
  lineEntry JSON_parse perr il =
  match decodeLine JSON_parse perr (trim il.2) with
  | inl obj => Decoded obj (S il.1)
  | inr msg =>
      ParseErrorEntry
        (ParseError.mk (S il.1) (truncateRaw (trim il.2)) msg) (S il.1)
  end.
Proof. destruct il as [i l]. apply lineEntry_unfold. Qed.

Lemma parseLoop_spec JSON_parse perr (lines : list jsstring) :
  forall i r,
    parseLoop JSON_parse perr i lines r =
    let es := map (lineEntry JSON_parse perr)
                (List.filter (fun il => nonBlank il.2) (numberFrom i lines)) in
    ParseResult.mk (ParseResult.entries r ++ es)
      (ParseResult.parseErrors r ++ omap entryError es)
      (ParseResult.totalLines r + length es).
Proof.
  induction lines as [|l rest IH]; intros i r; cbn [parseLoop numberFrom].
  - cbn. rewrite !app_nil_r, Nat.add_0_r. by destruct r.
  - cbn [List.filter snd].
    destruct (nonBlank l) eqn:E; unfold nonBlank in E.
    + apply negb_true_iff in E. rewrite E.
      cbn zeta. cbn [map]. rewrite lineEntry_unfold.
      replace (i + 1) with (S i) by lia.
      destruct (decodeLine JSON_parse perr (trim l)) as [obj|msg];
        rewrite IH; cbn; rewrite <- ?app_assoc; cbn; f_equal; lia.
    + apply negb_false_iff in E. rewrite E. apply IH.
Qed.

Lemma filter_numberFrom_length (lines : list jsstring) :
  forall i,
    length (List.filter (fun il : nat * jsstring => nonBlank il.2) (numberFrom i lines))
    = length (List.filter nonBlank lines).
Proof.
  induction lines as [|l rest IH]; intros i; cbn; [reflexivity|].
  destruct (nonBlank l); cbn; rewrite IH; reflexivity.
Qed.

Lemma numberFrom_lookup (lines : list jsstring) :
  forall k i l, In (i, l) (numberFrom k lines) ->
                k <= i /\ lines !! (i - k) = Some l.
Proof.
  induction lines as [|x rest IH]; intros k i l; cbn; [tauto|].
  intros [E|Hin].
  - injection E as <- <-. rewrite Nat.sub_diag. split; [lia|reflexivity].
  - apply IH in Hin as [Hle Hl]. split; [lia|].
    replace (i - k) with (S (i - S k)) by lia. exact Hl.
Qed.

(** C4. For every text, whatever [JSON.parse] does on its lines,
    [parseJSONL] returns (it is a total function: no exception leaves it)
    and its result has one entry for each non-blank line, in order.  The
    entry of a line that [JSON.parse] decodes to an object (or an array)
    is that decoded value with its 1-based line number.  The entry of
    any other line is a parse-error entry carrying that number, the
    error message (of [JSON.parse], or of setting [_lineNumber] on the
    [null], number, boolean or string that the line decodes to) and the
    line, cut after 200 code units and then marked when it is longer;
    the marker is the literal of the source, the three code units
    U+201A, U+00C4 and U+00B6.  Blank lines give no entry; [totalLines]
    is the number of non-blank lines and of entries; [parseErrors] lists
    the errors of the parse-error entries. *)
Theorem parseJSONL_one_entry_per_nonblank_line
    (JSON_parse : jsstring -> json + jsstring)
    (propertySetError : json -> jsstring) (text : jsstring) :
  let r := parseJSONL JSON_parse propertySetError text in
  let lines := split 10 text in
  ParseResult.entries r
    = map (lineEntry JSON_parse propertySetError)
        (List.filter (fun il => nonBlank il.2) (numberFrom 0 lines))
  /\ ParseResult.totalLines r = length (List.filter nonBlank lines)
  /\ length (ParseResult.entries r) = ParseResult.totalLines r
  /\ ParseResult.parseErrors r = omap entryError (ParseResult.entries r)
  /\ (forall e, e ∈ ParseResult.entries r ->
        match e with
        | Decoded obj n =>
            exists l, lines !! (n - 1) = Some l /\ 1 <= n /\
              JSON_parse (trim l) = inl obj /\ isObjectValue obj = true
        | ParseErrorEntry err n =>
            exists l, lines !! (n - 1) = Some l /\ 1 <= n /\
              match JSON_parse (trim l) with
              | inl v =>
                  isObjectValue v = false /\
                  ParseError.error err = propertySetError v
              | inr msg => ParseError.error err = msg
              end /\
              ParseError.line err = n /\
              ParseError.raw err =
                (if decide (length (trim l) <= 200) then trim l
                 else take 200 (trim l) ++ [8218%N; 196%N; 182%N]) /\
              err ∈ ParseResult.parseErrors r
        end)
  /\ (forall i l obj,
        lines !! i = Some l -> nonBlank l = true ->
        JSON_parse (trim l) = inl obj -> isObjectValue obj = true ->
        Decoded obj (S i) ∈ ParseResult.entries r).
Proof.
  intros r lines. subst r. unfold parseJSONL. fold lines.
  rewrite parseLoop_spec. cbn zeta.
  cbn [ParseResult.entries ParseResult.parseErrors ParseResult.totalLines
       app Nat.add].
  split; [reflexivity|].
  split; [by rewrite length_map, filter_numberFrom_length|].
  split; [reflexivity|].
  split; [reflexivity|].
  split.
  - intros e He.
    assert (Herr : forall err n, e = ParseErrorEntry err n ->
              err ∈ omap entryError
                (map (lineEntry JSON_parse propertySetError)
                   (List.filter (fun il : nat * jsstring => nonBlank il.2)
                      (numberFrom 0 lines)))).
    { intros err n ->. apply list_elem_of_omap. eexists; split; [exact He|done]. }
    apply list_elem_of_In, in_map_iff in He.
    destruct He as ([i l] & <- & Hin). apply filter_In in Hin.
    destruct Hin as [Hin _]. apply numberFrom_lookup in Hin.
    destruct Hin as [_ Hl]. rewrite Nat.sub_0_r in Hl.
    unfold lineEntry, errorEntry in *. cbn [fst snd] in *.
    destruct (JSON_parse (trim l)) as [v|msg] eqn:D.
    + destruct (isObjectValue v) eqn:Ev.
      * exists l. replace (S i - 1) with i by lia.
        split_and!; try done. lia.
      * exists l. replace (S i - 1) with i by lia. rewrite D.
        split_and!; try done; try lia. eapply Herr. reflexivity.
    + exists l. replace (S i - 1) with i by lia. rewrite D.
      split_and!; try done; try lia. eapply Herr. reflexivity.
  - intros i l obj Hl Hnb Hp Hobj.
    apply list_elem_of_In, in_map_iff. exists (i, l). split.
    + unfold lineEntry. cbn [fst snd]. by rewrite Hp, Hobj.
    + apply filter_In. split; [|done].
      clear - Hl. replace i with (0 + i) at 1 by lia.
      generalize 0 as k. revert i Hl.
      induction lines as [|x rest IH]; intros i Hl k; [done|].
      destruct i as [|i]; cbn in Hl |- *.
      * injection Hl as ->. left. f_equal. lia.
      * right. replace (k + S i) with (S k + i) by lia. by apply IH.
Qed.

(** A message, a blank line, a line of 250 letters that is not JSON and
    a line that holds [null]: the message is decoded, the long line is
    cut after 200 letters and marked, and [null] gives an error too. *)
Lemma parseJSONL_one_entry_per_nonblank_line_witness :
  ParseResult.entries
    (parseJSONL sampleParse (fun _ => js "TypeError") longText)
  = [Decoded (JObj [(js "type", JStr (js "message"))]) 1;
     ParseErrorEntry
       (ParseError.mk 3 (repeat 120%N 200 ++ [8218%N; 196%N; 182%N])
          (js "Unexpected token")) 3;
     ParseErrorEntry (ParseError.mk 4 (js "null") (js "TypeError")) 4].
Proof.
  rewrite (proj1 (parseJSONL_one_entry_per_nonblank_line sampleParse
                    (fun _ => js "TypeError") longText)).
  vm_compute. reflexivity.
Defined.

(** ** Regular expressions and the scan, on the commands of the tests *)

Example regexp_examples :
  testPattern (js "git\s+push\s+(-[a-zA-Z]*f|--force)")
    (js "git push --force origin main") = Some true
  /\ testPattern (js "git\s+reset\s+--hard") (js "git reset --hard HEAD")
     = Some true
  /\ testPattern (js "rm\s+(-[a-zA-Z]*r[a-zA-Z]*|--recursive)") (js "ls -la")
     = Some false
  /\ testPattern (js "rm\s+-[a-zA-Z]*r") (js "sudo RM  -Rf /") = Some true
  /\ testPattern (js "rm\s+-[a-zA-Z]*r") (js "rm /tmp/x -r") = Some false
  /\ Regex.RegExp (js "a**") = None
  /\ Regex.RegExp (js "(ab") = None.
Proof. repeat split; vm_compute; reflexivity. Qed.

(** A [null] among the blocks of a message ends the scan of the file in
    the [catch]; the hits pushed before it are kept. *)
Example scan_ends_at_null_block :
  dangerScan [rmRule]
    [assistantMessage (JStr (js "m1"))
       [execBlock "input" rmCommand; JNull; execBlock "input" rmCommand];
     assistantMessage (JStr (js "m2")) [execBlock "input" rmCommand]]
  = Some [rmHit (Some (JStr (js "m1")))].
Proof. vm_compute. reflexivity. Qed.

(** ** The danger scanner: the loop over the collected strings *)

Section PatternLoop.

Variable compiled : list Compiled.t.

#[local] Abbreviation state := (gset jsstring * list (Compiled.t * jsstring))%type.

Lemma loopInv_init strings : loopInv compiled strings (∅, []).
Proof.
  split; cbn.
  - intros k. set_solver.
  - constructor.
  - intros m Hm. inversion Hm.
Qed.

Lemma tryRule_inv strings s st rule :
  rule ∈ compiled -> s ∈ strings ->
  loopInv compiled strings st -> loopInv compiled strings (tryRule s st rule).
Proof.
  intros Hr Hs [Hm Hn Hsnd]. unfold tryRule.
  destruct (isToolBased rule) eqn:Et; [by split|].
  case_bool_decide as Hk; [by split|].
  destruct (existsb _ _) eqn:Ex; [|by split].
  split; cbn [fst snd].
  - intros k. rewrite map_app, elem_of_app, elem_of_union, elem_of_singleton.
    cbn. rewrite Hm. set_solver.
  - rewrite map_app. cbn. apply NoDup_app. split; [exact Hn|].
    split; [|apply NoDup_singleton].
    intros k Hin Hin'. apply list_elem_of_singleton in Hin'. subst k.
    apply Hk, Hm, Hin.
  - intros m Hin. apply elem_of_app in Hin as [Hin|Hin]; [by apply Hsnd|].
    apply list_elem_of_singleton in Hin. subst m. cbn. done.
Qed.



Lemma rules_inv strings s (rules : list Compiled.t) :
  forall st, rules ⊆ compiled -> s ∈ strings ->
             loopInv compiled strings st -> loopInv compiled strings (foldl (tryRule s) st rules).
Proof.
  induction rules as [|r rules IH]; intros st Hsub Hs Hinv; cbn; [done|].
  apply IH; [set_solver|done|]. apply tryRule_inv; [set_solver|done..].
Qed.



#[local] Abbreviation loop := (foldl (fun st s => foldl (tryRule s) st compiled)).

Lemma strings_inv all (strings : list jsstring) :
  forall st, strings ⊆ all -> loopInv compiled all st -> loopInv compiled all (loop st strings).
Proof.
  induction strings as [|s strings IH]; intros st Hsub Hinv; cbn; [done|].
  apply IH; [set_solver|]. apply rules_inv; [done|set_solver|done].
Qed.



Lemma patternMatches_inv strings :
  loopInv compiled strings
    (foldl (fun st s => foldl (tryRule s) st compiled) (∅, []) strings).
Proof. apply strings_inv; [done|apply loopInv_init]. Qed.


(** A recorded pair is a pattern-based rule of the rule set and a
    collected string that one of its expressions matches. *)
Lemma patternMatches_sound strings m :
  m ∈ patternMatches compiled strings ->
  m.1 ∈ compiled /\ isToolBased m.1 = false /\ m.2 ∈ strings /\
  existsb (fun rx => Regex.test rx m.2) (Compiled.regexes m.1) = true.
Proof. apply (inv_sound _ _ _ (patternMatches_inv strings)). Qed.


End PatternLoop.

(** ** The danger scanner: pattern-based rules *)

Lemma str_eqb_eq (a b : jsstring) : str_eqb a b = true <-> a = b.
Proof. unfold str_eqb. apply bool_decide_eq_true. Qed.

Lemma startsWith_spec (s p : jsstring) :
  startsWith s p = true <-> exists t, s = p ++ t.
Proof.
  revert s. induction p as [|c p IH]; intros s; cbn.
  - destruct s; split; eauto.
  - destruct s as [|d s]; cbn; [split; [done|intros [t Ht]; done]|].
    rewrite andb_true_iff, N.eqb_eq, IH. split.
    + intros [-> [t ->]]. by exists t.
    + intros [t Ht]. injection Ht as -> ->. eauto.
Qed.



Lemma scanBlock_split compiled msgId block :
  scanBlock compiled msgId block =
  if isToolCall block then
    toolHits compiled msgId (blockToolName block) (blockToolAction block)
    ++ map (patternHit msgId (blockToolName block))
         (blockPatternMatches compiled block)
  else [].
Proof.
  unfold scanBlock, blockPatternMatches, patternHits.
  destruct (isToolCall block); [|done].
  destruct (blockSrc block) as [src|]; [|done]. by destruct (truthy src).
Qed.




(** ** The danger scanner: tool-based rules *)

Lemma blockToolAction_action (block : json) :
  blockToolAction block = default (JStr []) (blockAction block) /\
  truthy (blockToolAction block) = bool_decide (is_Some (blockAction block)).
Proof.
  unfold blockToolAction, blockAction, or_default.
  destruct (blockSrc block) as [src|]; [|done].
  destruct (prop "action" src) as [a|]; [|done].
  destruct (truthy a) eqn:E; [|done]. cbn. by rewrite E.
Qed.

Lemma existsb_str_eqb (a : jsstring) (acts : list jsstring) :
  existsb (str_eqb a) acts = bool_decide (a ∈ acts).
Proof.
  induction acts as [|x acts IH]; cbn.
  - symmetry. apply bool_decide_eq_false. by intros ?%elem_of_nil.
  - rewrite IH. unfold str_eqb.
    apply eq_true_iff_eq. rewrite orb_true_iff, !bool_decide_eq_true.
    rewrite elem_of_cons. tauto.
Qed.

Lemma toolRuleMatches_applies (tr : ToolRule.t) (block : json) :
  toolRuleMatches tr (blockToolName block) (blockToolAction block)
  = bool_decide (toolRuleApplies tr block).
Proof.
  destruct (blockToolAction_action block) as [Ha Ht].
  unfold toolRuleMatches, toolRuleApplies. rewrite Ht, Ha.
  apply eq_true_iff_eq. rewrite andb_true_iff, bool_decide_eq_true.
  assert (H1 : strict_eq (JStr (ToolRule.toolName tr)) (blockToolName block) = true
               <-> match blockToolName block with
                   | JStr n => n = ToolRule.toolName tr
                   | _ => False
                   end).
  { destruct (blockToolName block); cbn; try (split; [done|tauto]).
    rewrite str_eqb_eq. split; congruence. }
  assert (H2 : match ToolRule.actions tr with
               | Some acts =>
                   bool_decide (is_Some (blockAction block))
                   && actionsInclude acts (default (JStr []) (blockAction block))
               | None => true
               end = true
               <-> match ToolRule.actions tr with
                   | Some acts =>
                       match blockAction block with
                       | Some (JStr a) => a ∈ acts
                       | _ => False
                       end
                   | None => True
                   end).
  { destruct (ToolRule.actions tr) as [acts|]; [|tauto].
    destruct (blockAction block) as [a|]; cbn.
    - destruct a; cbn; try (split; [done|tauto]).
      by rewrite existsb_str_eqb, bool_decide_eq_true.
    - split; [done|tauto]. }
  tauto.
Qed.

Lemma toolCommand_action (block : json) :
  toolCommand (blockToolName block) (blockToolAction block)
  = toolHitCommand block.
Proof.
  destruct (blockToolAction_action block) as [Ha Ht].
  unfold toolCommand, toolHitCommand. rewrite Ht, Ha.
  destruct (blockAction block) as [a|]; cbn.
  - reflexivity.
  - by rewrite app_nil_r.
Qed.

Lemma toolHits_toolRuleHits compiled msgId block :
  toolHits compiled msgId (blockToolName block) (blockToolAction block)
  = toolRuleHits compiled msgId block.
Proof.
  unfold toolHits, toolRuleHits.
  induction compiled as [|rule compiled IH]; cbn; [done|]. rewrite IH. f_equal.
  destruct (Compiled.toolRules rule) as [trs|]; cbn; [|done].
  induction trs as [|tr trs IHt]; cbn; [done|]. rewrite IHt. f_equal.
  rewrite toolRuleMatches_applies, toolCommand_action.
  case_bool_decide; by case_decide.
Qed.



(** Against C7 as stated.  A [toolCall] block with neither [arguments]
    nor [input] still gives a hit, from a tool-based rule with the
    wildcard [null], where C7 has it contribute none at all. *)
Lemma block_without_arguments_still_hits :
  prop "arguments" cameraBlock = None /\ prop "input" cameraBlock = None /\
  dangerScan [surveillanceRule] [assistantMessage (JStr (js "m1")) [cameraBlock]]
  = Some [Hit.mk (Some (JStr (js "m1"))) (js "camera") (js "surveillance")
            (js "warning") (Some (js "Surveillance"))].
Proof. vm_compute. repeat split. Qed.

(** C7, as the code has it.  A [toolCall] block with neither
    [arguments] nor [input] contributes no pattern-based hit; its hits
    are those of the tool-based rules, where a pair applies exactly when
    its name is the tool name of the block and its actions are the
    wildcard [null], and their command is the tool name alone. *)
Theorem block_without_arguments_wildcard_hits_only
    (compiled : list Compiled.t) (msgId : jsval) (block : json) :
  isToolCall block = true ->
  prop "arguments" block = None -> prop "input" block = None ->
  blockPatternMatches compiled block = []
  /\ scanBlock compiled msgId block = toolRuleHits compiled msgId block
  /\ (forall tr, toolRuleApplies tr block <->
        blockToolName block = JStr (ToolRule.toolName tr)
        /\ ToolRule.actions tr = None)
  /\ toolHitCommand block = to_string (blockToolName block).
Proof.
  intros Htc Ha Hi.
  assert (Hsrc : blockSrc block = None).
  { unfold blockSrc, js_or. by rewrite Ha, Hi. }
  assert (Hpm : blockPatternMatches compiled block = []).
  { unfold blockPatternMatches. by rewrite Hsrc. }
  assert (Hact : blockAction block = None).
  { unfold blockAction. by rewrite Hsrc. }
  split; [exact Hpm|]. split.
  - rewrite scanBlock_split, Htc, toolHits_toolRuleHits, Hpm. cbn.
    by rewrite app_nil_r.
  - split.
    + intros tr. unfold toolRuleApplies. rewrite Hact.
      destruct (blockToolName block); destruct (ToolRule.actions tr);
        naive_solver.
    + unfold toolHitCommand. by rewrite Hact.
Qed.

(** The camera call without arguments under the surveillance rule. *)
Lemma block_without_arguments_wildcard_hits_only_witness :
  isToolCall cameraBlock = true /\
  scanBlock surveillanceCompiled None cameraBlock
  = [Hit.mk None (js "camera") (js "surveillance") (js "warning")
       (Some (js "Surveillance"))].
Proof.
  split; [reflexivity|].
  rewrite (proj1 (proj2 (block_without_arguments_wildcard_hits_only
                    surveillanceCompiled None cameraBlock eq_refl eq_refl eq_refl))).
  vm_compute. reflexivity.
Defined.

Lemma patternCommand_toolLabel (block : json) (s : jsstring) :
  patternCommand (blockToolName block) s
  = toolLabel block ++ js ": " ++ take 200 s.
Proof.
  unfold patternCommand, toolLabel, blockToolName, or_default, substring0.
  destruct (prop "name" block) as [n|]; [|reflexivity].
  destruct (truthy n) eqn:E; [by rewrite E|reflexivity].
Qed.

(** C9. Under the one rule of category destructive-fs, severity
    critical and pattern [rm\s+-[a-zA-Z]*r], the scan of a session with
    one message whose tool call is [exec] with the argument
    [{command: "rm -rf /tmp/x"}] (under [arguments] or under [input]) is
    exactly one hit, with the id of the message, that category and
    severity and the command [exec: rm -rf /tmp/x].  In general the
    command of a pattern-based hit is the tool name of the block (a
    question mark when it has none), a colon and a space, and the first
    200 code units of the matched string. *)
Theorem rm_scenario_one_hit (id : json) :
  dangerScan [rmRule] [assistantMessage id [execBlock "arguments" rmCommand]]
    = Some [rmHit (Some id)]
  /\ dangerScan [rmRule] [assistantMessage id [execBlock "input" rmCommand]]
    = Some [rmHit (Some id)]
  /\ (forall compiled msgId block h,
        h ∈ map (patternHit msgId (blockToolName block))
              (blockPatternMatches compiled block) ->
        exists rule s,
          rule ∈ compiled /\
          Hit.msgId h = msgId /\
          Hit.category h = Compiled.category rule /\
          Hit.severity h = Compiled.severity rule /\
          Hit.command h = toolLabel block ++ js ": " ++ take 200 s /\
          length (take 200 s) <= 200).
Proof.
  split; [vm_compute; reflexivity|]. split; [vm_compute; reflexivity|].
  intros compiled msgId block h Hh.
  apply list_elem_of_In, in_map_iff in Hh. destruct Hh as ([rule s] & <- & Hm).
  exists rule, s. unfold patternHit.
  cbn [Hit.msgId Hit.command Hit.category Hit.severity fst snd].
  rewrite patternCommand_toolLabel.
  repeat split; try done.
  - unfold blockPatternMatches in Hm.
    destruct (blockSrc block) as [src|]; [|done].
    destruct (truthy src); [|done].
    apply list_elem_of_In, patternMatches_sound in Hm. by destruct Hm.
  - rewrite length_take. lia.
Qed.

(** ** Read progress *)

Lemma obj_get_set_eq {V} (k : jsstring) (v : V) (o : list (jsstring * V)) :
  obj_get k (obj_set k v o) = Some v.
Proof.
  unfold obj_get. induction o as [|[k' v'] o IH]; cbn.
  - unfold str_eqb. by rewrite bool_decide_true.
  - destruct (str_eqb k k') eqn:E; cbn.
    + unfold str_eqb. by rewrite bool_decide_true.
    + by rewrite E.
Qed.

Lemma findIndex_messagesAfter (id : jsstring) (msgs : list SessionEntry) :
  match findIndex (hasId id) msgs, messagesAfter id msgs with
  | Some idx, Some post => length msgs = idx + 1 + length post
  | None, None => True
  | _, _ => False
  end.
Proof.
  induction msgs as [|m rest IH]; cbn [findIndex messagesAfter]; [done|].
  destruct (hasId id m); [cbn; lia|].
  destruct (findIndex (hasId id) rest), (messagesAfter id rest);
    cbn [option_map length] in *; lia.
Qed.

Lemma unreadAfter_messagesAfter (id : jsstring) (msgs : list SessionEntry) :
  unreadAfter id msgs =
  match messagesAfter id msgs with
  | Some post => Z.of_nat (length post)
  | None => Z.of_nat (length msgs)
  end.
Proof.
  unfold unreadAfter. pose proof (findIndex_messagesAfter id msgs) as H.
  destruct (findIndex (hasId id) msgs), (messagesAfter id msgs); try done; lia.
Qed.

Lemma messagesAfter_first (id : jsstring) (pre post : list SessionEntry) m :
  (forall x, x ∈ pre -> hasId id x = false) -> hasId id m = true ->
  messagesAfter id (pre ++ m :: post) = Some post.
Proof.
  intros Hpre Hm. induction pre as [|x pre IH]; cbn.
  - by rewrite Hm.
  - rewrite (Hpre x) by set_solver. apply IH. intros y Hy. apply Hpre. set_solver.
Qed.

Lemma messagesAfter_none (id : jsstring) (msgs : list SessionEntry) :
  (forall x, x ∈ msgs -> hasId id x = false) -> messagesAfter id msgs = None.
Proof.
  intros H. induction msgs as [|x msgs IH]; cbn; [done|].
  rewrite (H x) by set_solver. apply IH. intros y Hy. apply H. set_solver.
Qed.

(** Against C5 as stated.  In danger-only mode [handleMarkRead] returns
    at once: marking the third of five messages read leaves the progress
    empty, so [lastReadId] is not set. *)
Lemma handleMarkRead_noop :
  handleMarkRead true [SessionRow.mk (js "a.jsonl") (js "s1")] fiveMessages
    [] [] (js "2026-01-02T00:00:00.000Z") (js "a.jsonl") (js "m3")
  = ([], []).
Proof. reflexivity. Qed.

(** C5, as the code has it.  Outside danger-only mode, marking the
    message id [messageId] read puts under the key of the session an
    entry whose [lastReadId] is that id, whose [unreadCount] is the
    number of messages strictly after the first message with that id in
    file order, or the number of all messages when no message has it,
    and whose [readAll] is true exactly when the last message has that
    id; when the marked message is the last and no earlier message
    shares its id, [unreadCount] is 0. *)
Theorem mark_read_outside_danger_only
    (sessions : list SessionRow.t) (currentEntries : list SessionEntry)
    (progress : Progress) (h : Heap) (now filename messageId : jsstring) :
  let msgs := List.filter isMessage currentEntries in
  let pk := rowKey (findRow sessions filename) filename in
  let st := handleMarkRead false sessions currentEntries progress h now
              filename messageId in
  exists e,
    (obj_get pk st.1 ≫= fun l => st.2 !! l) = Some e
    /\ ProgressEntry.lastReadId e = Some messageId
    /\ ProgressEntry.unreadCount e =
         Some (match messagesAfter messageId msgs with
               | Some post => Z.of_nat (length post)
               | None => Z.of_nat (length msgs)
               end)
    /\ (ProgressEntry.readAll e = Some true \/ ProgressEntry.readAll e = Some false)
    /\ (ProgressEntry.readAll e = Some true <->
          exists m, last msgs = Some m /\ hasId messageId m = true)
    /\ (forall pre m, msgs = pre ++ [m] -> hasId messageId m = true ->
          (forall x, x ∈ pre -> hasId messageId x = false) ->
          ProgressEntry.unreadCount e = Some 0%Z)
    /\ ((forall x, x ∈ msgs -> hasId messageId x = false) ->
          ProgressEntry.unreadCount e = Some (Z.of_nat (length msgs))).
Proof.
  intros msgs pk st. subst st. unfold handleMarkRead. fold msgs. fold pk.
  cbn [fst snd]. rewrite obj_get_set_eq. cbn [mbind option_bind].
  eexists. split.
  { rewrite lookup_app_r, Nat.sub_diag by lia. reflexivity. }
  cbn [ProgressEntry.lastReadId ProgressEntry.unreadCount ProgressEntry.readAll].
  rewrite unreadAfter_messagesAfter.
  split; [reflexivity|]. split; [reflexivity|]. split.
  { destruct (last msgs) as [m|]; [destruct (hasId messageId m)|]; auto. }
  split.
  { destruct (last msgs) as [m|].
    - split.
      + intros [= E]. eauto.
      + intros (m' & [= <-] & ->). reflexivity.
    - split; [done|]. intros (m' & ? & _). done. }
  split.
  - intros pre m -> Hm Hpre. by rewrite (messagesAfter_first _ pre [] m).
  - intros Hno. by rewrite messagesAfter_none.
Qed.

(** Five messages, no progress yet, the third marked read: two unread. *)
Lemma mark_read_outside_danger_only_witness :
  exists e,
    (obj_get (js "s1")
       (handleMarkRead false [SessionRow.mk (js "a.jsonl") (js "s1")]
          fiveMessages [] [] (js "2026-01-02T00:00:00.000Z") (js "a.jsonl")
          (js "m3")).1
     ≫= fun l =>
       (handleMarkRead false [SessionRow.mk (js "a.jsonl") (js "s1")]
          fiveMessages [] [] (js "2026-01-02T00:00:00.000Z") (js "a.jsonl")
          (js "m3")).2 !! l) = Some e
    /\ ProgressEntry.lastReadId e = Some (js "m3")
    /\ ProgressEntry.unreadCount e = Some 2%Z.
Proof.
  destruct (mark_read_outside_danger_only
              [SessionRow.mk (js "a.jsonl") (js "s1")] fiveMessages [] []
              (js "2026-01-02T00:00:00.000Z") (js "a.jsonl") (js "m3"))
    as (e & He & Hid & Hun & _).
  exists e. split; [exact He|]. split; [exact Hid|]. exact Hun.
Defined.

Lemma ensure_present (k : jsstring) (p : Progress) (h : Heap) (l : loc) :
  obj_get k p = Some l -> ensure k p h = (p, h, l).
Proof. unfold ensure. by intros ->. Qed.

(** Against C2 as stated.  A session marked read to its end keeps
    [readAll = true] when three messages arrive, in the change handler
    and in [loadSessionData] alike, where C2 has it set to false; the
    unread count does become 3. *)
Lemma readAll_survives_growth :
  sseRefresh [(js "s1", 0)] [fullyRead]
    [SessionInfo.mk (js "a.jsonl") (Some (js "s1"))] [(js "a.jsonl", 6%Z)]
    (js "a.jsonl")
  = ([(js "s1", 0)],
     [ProgressEntry.mk (Some (js "m3")) (Some (js "2026-01-01T00:00:00.000Z"))
        (Some 6%Z) (Some 3%Z) (Some true) None])
  /\ loadSessionData (js "a.jsonl")
       (Some (SessionRow.mk (js "a.jsonl") (js "s1"))) [(js "s1", 0)]
       [fullyRead] sixMessages
  = ([(js "s1", 0)],
     [ProgressEntry.mk (Some (js "m3")) (Some (js "2026-01-01T00:00:00.000Z"))
        (Some 6%Z) (Some 3%Z) (Some true) None]).
Proof. split; vm_compute; reflexivity. Qed.

(** C2, as the code has it.  For a session whose entry has a last read
    id, [readAll = true], [totalMsgs = n] and nothing unread, a
    recomputation after [k] more messages (the step of the change
    handler, given the new count; [loadSessionData], given the messages,
    of which the last read one is followed by the new ones) sets
    [totalMsgs] to the new count and [unreadCount] to the number of new
    messages, and leaves [lastReadId] and the rest of the entry as they
    were: [readAll] stays true. *)
Theorem growth_recompute_keeps_readAll
    (p : Progress) (h : Heap) (pk : jsstring) (l : loc) (e : ProgressEntry.t)
    (id : jsstring) (n k : Z) :
  obj_get pk p = Some l -> h !! l = Some e ->
  ProgressEntry.lastReadId e = Some id -> id <> [] ->
  ProgressEntry.readAll e = Some true ->
  ProgressEntry.totalMsgs e = Some n ->
  ProgressEntry.unreadCount e = Some 0%Z ->
  (0 <= k)%Z ->
  (forall counts s,
      SessionInfo.key s = pk ->
      countOf counts (SessionInfo.filename s) = (n + k)%Z ->
      (recomputeRow counts (p, h) s).1 = p /\
      (recomputeRow counts (p, h) s).2 !! l =
        Some (ProgressEntry.mk (Some id) (ProgressEntry.lastReadAt e)
                (Some (n + k)%Z) (Some k) (Some true)
                (ProgressEntry.customLabel e)))
  /\ (forall filename row entries old m new,
        rowKey row filename = pk ->
        List.filter isMessage entries = old ++ m :: new ->
        hasId id m = true ->
        (forall x, x ∈ old -> hasId id x = false) ->
        (loadSessionData filename row p h entries).1 = p /\
        (loadSessionData filename row p h entries).2 !! l =
          Some (ProgressEntry.mk (Some id) (ProgressEntry.lastReadAt e)
                  (Some (Z.of_nat (length (old ++ m :: new))))
                  (Some (Z.of_nat (length new))) (Some true)
                  (ProgressEntry.customLabel e))).
Proof.
  intros Hp Hh Hid Hne Hall Htot Hun Hk.
  destruct e as [lr la tm uc ra cl]. cbn in Hid, Hall, Htot, Hun. subst.
  destruct id as [|c id]; [done|].
  split.
  - intros counts s Hkey Hcount. unfold recomputeRow. cbn [fst snd].
    rewrite Hkey, (ensure_present _ _ _ _ Hp), Hp. cbn [mbind option_bind].
    rewrite Hh. cbn [mbind option_bind ProgressEntry.totalMsgs default].
    rewrite list_lookup_alter_eq, Hh. cbn. split; [reflexivity|].
    rewrite !list_lookup_alter_eq, Hh. cbn. rewrite Hcount.
    replace (0 `max` (n + k - (n - 0)))%Z with k by lia. reflexivity.
  - intros filename row entries old m new Hkey Hmsgs Hm Hold.
    unfold loadSessionData. rewrite Hkey, (ensure_present _ _ _ _ Hp), Hmsgs.
    rewrite list_lookup_alter_eq, Hh. cbn. split; [reflexivity|].
    rewrite !list_lookup_alter_eq, Hh. cbn.
    rewrite unreadAfter_messagesAfter.
    by rewrite (messagesAfter_first _ old new m Hold Hm).
Qed.

(** Three messages read to the end, then three more. *)
Lemma growth_recompute_keeps_readAll_witness :
  (recomputeRow [(js "a.jsonl", 6%Z)] ([(js "s1", 0)], [fullyRead])
     (SessionInfo.mk (js "a.jsonl") (Some (js "s1")))).2 !! 0
  = Some (ProgressEntry.mk (Some (js "m3"))
            (Some (js "2026-01-01T00:00:00.000Z"))
            (Some 6%Z) (Some 3%Z) (Some true) None).
Proof.
  apply (proj1 (growth_recompute_keeps_readAll [(js "s1", 0)] [fullyRead]
                  (js "s1") 0 fullyRead (js "m3") 3 3
                  eq_refl eq_refl eq_refl ltac:(discriminate) eq_refl eq_refl
                  eq_refl ltac:(lia))
               [(js "a.jsonl", 6%Z)]
               (SessionInfo.mk (js "a.jsonl") (Some (js "s1")))
               eq_refl eq_refl).
Defined.

(** C3 at a failing input.  The progress of a session whose file has no
    session id is kept under the file name.  The migration loop deletes
    that key from the working copy although no session id is known, the
    count step then makes a fresh entry for it, and the state set by the
    initial load has that fresh entry under the key: the last read id,
    the read-all flag and the custom label are lost. *)
Theorem filename_keyed_progress_lost :
  migrateProgress [(js "a.jsonl", 0)] [SessionInfo.mk (js "a.jsonl") None] = []
  /\ initialLoad [(js "a.jsonl", 0)] [partlyRead]
       [SessionInfo.mk (js "a.jsonl") None] [(js "a.jsonl", 5%Z)]
     = ([(js "a.jsonl", 1)],
        [partlyRead;
         ProgressEntry.mk None None (Some 5%Z) (Some 5%Z) None None]).
Proof. split; vm_compute; reflexivity. Qed.

Lemma obj_get_set_is_Some {V} (k k' : jsstring) (v : V) (o : list (jsstring * V)) :
  is_Some (obj_get k o) -> is_Some (obj_get k (obj_set k' v o)).
Proof.
  unfold obj_get. induction o as [|[k0 v0] o IH]; cbn; [by intros [? ?]|].
  destruct (str_eqb k k0) eqn:E, (str_eqb k' k0) eqn:E'; cbn.
  - apply str_eqb_eq in E, E'. subst. intros _.
    unfold str_eqb. rewrite bool_decide_true by done. eauto.
  - rewrite E. eauto.
  - intros H. apply str_eqb_eq in E'. subst k'. rewrite E.
    exact H.
  - rewrite E. exact IH.
Qed.

(** The state set by the initial load has every key of the progress
    object it was given. *)
Lemma initialLoad_keeps_keys (prog : Progress) (h : Heap)
    (sessData : list SessionInfo.t) (counts : list (jsstring * Z)) (k : jsstring) :
  is_Some (obj_get k prog) ->
  is_Some (obj_get k (initialLoad prog h sessData counts).1).
Proof.
  unfold initialLoad, obj_assign. cbn [fst].
  generalize (foldl (countRow counts) (migrateProgress prog sessData, h) sessData).1.
  intros src. revert prog. induction src as [|[k' v] src IH]; intros prog H; cbn.
  - exact H.
  - apply IH. by apply obj_get_set_is_Some.
Qed.

(** C8 at a failing input.  The migration loop moves the entry of a file
    with a known session id to that id in its working copy and deletes
    the file name there (or only deletes it, when the id has an entry),
    but [Object.assign(prog, migratedProg)] copies the working copy back
    over the object it came from: the state set by the initial load has
    the entry under the file name as well. *)
Theorem legacy_key_survives_initial_load :
  migrateProgress [(js "a.jsonl", 0)]
      [SessionInfo.mk (js "a.jsonl") (Some (js "s1"))] = [(js "s1", 0)]
  /\ initialLoad [(js "a.jsonl", 0)] [partlyRead]
       [SessionInfo.mk (js "a.jsonl") (Some (js "s1"))] [(js "a.jsonl", 7%Z)]
     = ([(js "a.jsonl", 0); (js "s1", 0)],
        [ProgressEntry.set_totalMsgs 7 partlyRead])
  /\ migrateProgress [(js "a.jsonl", 0); (js "s1", 1)]
      [SessionInfo.mk (js "a.jsonl") (Some (js "s1"))] = [(js "s1", 1)]
  /\ initialLoad [(js "a.jsonl", 0); (js "s1", 1)] [partlyRead; fullyRead]
       [SessionInfo.mk (js "a.jsonl") (Some (js "s1"))] [(js "a.jsonl", 3%Z)]
     = ([(js "a.jsonl", 0); (js "s1", 1)], [partlyRead; fullyRead]).
Proof. repeat split; vm_compute; reflexivity. Qed.

(** ** [readSession] *)

(** C10 at a failing input.  A file in a directory whose name begins
    with the name of the sessions directory passes the prefix test and
    is read, although it does not lie inside the sessions directory. *)
Theorem readSession_reads_sibling_directory :
  Path.resolve (js "/srv/app") (js "/data/sessions")
    (js "../sessions-old/secret.jsonl")
  = js "/data/sessions-old/secret.jsonl"
  /\ insideDir (js "/data/sessions") (js "/data/sessions-old/secret.jsonl") = false
  /\ readSession (js "/data/sessions") (js "/srv/app") siblingFs
       (js "../sessions-old/secret.jsonl")
     = Content (js "top secret").
Proof. repeat split; vm_compute; reflexivity. Qed.

(** What the test of [readSession] does ensure: a path that does not
    begin with the text of [SESSIONS_DIR] is not read. *)
Lemma readSession_prefix (dir cwd : jsstring) (fs : jsstring -> option fsnode)
    (filename : jsstring) :
  startsWith (Path.resolve cwd dir filename) dir = false ->
  readSession dir cwd fs filename = Null.
Proof. unfold readSession. by intros ->. Qed.

(** ** More on the danger scan *)

Lemma json_nested_ind (P : json -> Prop) :
  P JNull -> (forall b, P (JBool b)) -> (forall t, P (JNum t)) ->
  (forall s, P (JStr s)) ->
  (forall items, Forall P items -> P (JArr items)) ->
  (forall props, Forall (fun kv => P kv.2) props -> P (JObj props)) ->
  forall v, P v.
Proof.
  intros Hnull Hbool Hnum Hstr Harr Hobj.
  fix IH 1. intros [|b|t|s|items|props].
  - exact Hnull.
  - apply Hbool.
  - apply Hnum.
  - apply Hstr.
  - apply Harr. induction items as [|x items IHl]; constructor; [apply IH|exact IHl].
  - apply Hobj. induction props as [|kv props IHl]; constructor; [apply IH|exact IHl].
Qed.

Lemma occursIn_arr (s : jsstring) (items : list json) :
  occursIn s (JArr items) <-> exists x, x ∈ items /\ occursIn s x.
Proof.
  cbn. induction items as [|x items IH].
  - split; [tauto|]. intros (y & Hy & _). by apply elem_of_nil in Hy.
  - rewrite IH. split.
    + intros [H|(y & Hy & H)]; [exists x|exists y]; split; try done; set_solver.
    + intros (y & Hy & H). apply elem_of_cons in Hy as [->|Hy]; [by left|].
      right. eauto.
Qed.

Lemma occursIn_obj (s : jsstring) (props : list (jsstring * json)) :
  occursIn s (JObj props) <-> exists kv, kv ∈ props /\ occursIn s kv.2.
Proof.
  cbn. induction props as [|x props IH].
  - split; [tauto|]. intros (y & Hy & _). by apply elem_of_nil in Hy.
  - rewrite IH. split.
    + intros [H|(y & Hy & H)]; [exists x|exists y]; split; try done; set_solver.
    + intros (y & Hy & H). apply elem_of_cons in Hy as [->|Hy]; [by left|].
      right. eauto.
Qed.

Lemma walk_occursIn (v : json) (s : jsstring) :
  s ∈ walk v <-> occursIn s v /\ 2 < length s.
Proof.
  induction v as [|b|t|t|items IH|props IH] using json_nested_ind.
  - cbn. split; [by intros ?%elem_of_nil|tauto].
  - cbn. split; [by intros ?%elem_of_nil|tauto].
  - cbn. split; [by intros ?%elem_of_nil|tauto].
  - cbn [walk occursIn]. destruct (2 <? length t) eqn:E.
    + apply Nat.ltb_lt in E. rewrite list_elem_of_singleton.
      split; [intros ->; done|tauto].
    + apply Nat.ltb_ge in E. split; [by intros ?%elem_of_nil|].
      intros [-> ?]. lia.
  - rewrite occursIn_arr. cbn [walk].
    rewrite list_elem_of_In, in_flat_map. rewrite Forall_forall in IH. split.
    + intros (x & Hx & Hs). apply list_elem_of_In in Hx, Hs.
      apply (IH x Hx) in Hs as [Ho Hl]. eauto.
    + intros [(x & Hx & Ho) Hl]. exists x.
      split; [by apply list_elem_of_In|]. apply list_elem_of_In, (IH x Hx). done.
  - rewrite occursIn_obj. cbn [walk].
    rewrite list_elem_of_In, in_flat_map. rewrite Forall_forall in IH. split.
    + intros (x & Hx & Hs). apply list_elem_of_In in Hx, Hs.
      apply (IH x Hx) in Hs as [Ho Hl]. eauto.
    + intros [(x & Hx & Ho) Hl]. exists x.
      split; [by apply list_elem_of_In|]. apply list_elem_of_In, (IH x Hx). done.
Qed.

(** X1. [walk] collects exactly the string values of more than two code
    units found anywhere in the tree, at any depth of arrays and
    objects. *)
Theorem walk_collects_long_strings (v : json) (s : jsstring) :
  s ∈ walk v <-> occursIn s v /\ 2 < length s.
Proof. apply walk_occursIn. Qed.

Lemma scanLine_messageBlocks (compiled : list Compiled.t) (obj : json) :
  scanLine compiled obj =
  if isNull obj then ([], false)
  else match messageBlocks obj with
       | Some blocks => scanBlocks compiled (prop "id" obj) blocks
       | None => ([], true)
       end.
Proof.
  unfold scanLine, messageBlocks.
  destruct obj; cbn [isNull]; try reflexivity.
  destruct (prop "type" (JObj props)) as [[]|]; try reflexivity.
  destruct (str_eqb s (js "message")); [|reflexivity].
  destruct (prop "message" (JObj props)) as [msg|]; [|reflexivity].
  by destruct (prop "content" msg) as [[]|].
Qed.

Lemma scanBlocks_elem (compiled : list Compiled.t) (msgId : jsval)
    (blocks : list json) (h : Hit.t) :
  h ∈ (scanBlocks compiled msgId blocks).1 ->
  exists block, block ∈ blocks /\ h ∈ scanBlock compiled msgId block.
Proof.
  induction blocks as [|b blocks IH]; cbn [scanBlocks].
  - by intros ?%elem_of_nil.
  - destruct b; try (by intros ?%elem_of_nil);
      cbn [fst]; intros [H|H]%elem_of_app;
      solve [ eexists; split; [apply list_elem_of_here|exact H]
            | destruct (IH H) as (b' & Hb & Hh); exists b'; split;
              [by apply list_elem_of_further|done] ].
Qed.

Lemma scanBlocks_completes (compiled : list Compiled.t) (msgId : jsval)
    (blocks : list json) :
  (scanBlocks compiled msgId blocks).2 = forallb (fun b => negb (isNull b)) blocks.
Proof.
  induction blocks as [|b blocks IH]; cbn [scanBlocks forallb]; [done|].
  destruct b; cbn; done.
Qed.

Lemma scanLine_completes (compiled : list Compiled.t) (obj : json) :
  (scanLine compiled obj).2 = lineCompletes obj.
Proof.
  rewrite scanLine_messageBlocks. unfold lineCompletes.
  destruct (isNull obj); [done|]. cbn.
  destruct (messageBlocks obj); [apply scanBlocks_completes|done].
Qed.

(** X2. Every hit of a session comes from a [toolCall] block of a line of
    type [message] of that session, and carries the [id] of that line. *)
Theorem scanSession_hit_provenance (compiled : list Compiled.t)
    (objs : list json) (h : Hit.t) :
  h ∈ scanSession compiled objs ->
  exists obj blocks block,
    obj ∈ objs /\ messageBlocks obj = Some blocks /\ block ∈ blocks /\
    isToolCall block = true /\ Hit.msgId h = prop "id" obj /\
    h ∈ scanBlock compiled (prop "id" obj) block.
Proof.
  induction objs as [|obj objs IH]; cbn [scanSession].
  - by intros ?%elem_of_nil.
  - intros [H|H]%elem_of_app.
    + rewrite scanLine_messageBlocks in H.
      destruct (isNull obj); [by apply elem_of_nil in H|].
      destruct (messageBlocks obj) as [blocks|] eqn:Hb;
        [|by apply elem_of_nil in H].
      apply scanBlocks_elem in H as (block & Hin & Hh).
      exists obj, blocks, block.
      assert (Htc : isToolCall block = true).
      { rewrite scanBlock_split in Hh.
        destruct (isToolCall block); [done|by apply elem_of_nil in Hh]. }
      repeat split; try done; [apply list_elem_of_here|].
      rewrite scanBlock_split, Htc, toolHits_toolRuleHits in Hh.
      apply elem_of_app in Hh as [Hh|Hh].
      * unfold toolRuleHits in Hh.
        apply list_elem_of_In, in_flat_map in Hh as (rule & _ & Hh).
        apply in_flat_map in Hh as (tr & _ & Hh).
        destruct (decide (toolRuleApplies tr block)); [|done].
        destruct Hh as [<-|[]]. reflexivity.
      * apply list_elem_of_In, in_map_iff in Hh as (m & <- & _). reflexivity.
    + destruct (scanLine compiled obj).2; [|by apply elem_of_nil in H].
      destruct (IH H) as (o & bs & b & Ho & ?). exists o, bs, b.
      split; [by apply list_elem_of_further|done].
Qed.

(** The hit of the scenario with [rm -rf] is traced to its block. *)
Lemma scanSession_hit_provenance_witness :
  exists obj blocks block,
    obj ∈ [assistantMessage (JStr (js "m1")) [execBlock "arguments" rmCommand]]
    /\ messageBlocks obj = Some blocks /\ block ∈ blocks
    /\ isToolCall block = true
    /\ Hit.msgId (rmHit (Some (JStr (js "m1")))) = prop "id" obj
    /\ rmHit (Some (JStr (js "m1")))
         ∈ scanBlock rmCompiled (prop "id" obj) block.
Proof.
  apply (scanSession_hit_provenance rmCompiled
           [assistantMessage (JStr (js "m1")) [execBlock "arguments" rmCommand]]
           (rmHit (Some (JStr (js "m1"))))).
  vm_compute. left.
Defined.

(** X3. A hit of a block is either the hit of a pair of a tool-based rule
    that applies to the block, or the hit of a pattern-based rule for a
    string value of more than two code units found in the argument
    payload that one of the expressions of the rule matches. *)
Theorem scanBlock_hit_sound (compiled : list Compiled.t) (msgId : jsval)
    (block : json) (h : Hit.t) :
  h ∈ scanBlock compiled msgId block ->
  exists rule,
    rule ∈ compiled /\
    Hit.msgId h = msgId /\
    Hit.category h = Compiled.category rule /\
    Hit.severity h = Compiled.severity rule /\
    Hit.label h = Compiled.label rule /\
    ((exists trs tr,
         Compiled.toolRules rule = Some trs /\ tr ∈ trs /\
         toolRuleApplies tr block /\ Hit.command h = toolHitCommand block)
     \/ (exists src s rx,
           Compiled.toolRules rule = None /\
           blockSrc block = Some src /\ truthy src = true /\
           occursIn s src /\ 2 < length s /\
           rx ∈ Compiled.regexes rule /\ Regex.test rx s = true /\
           Hit.command h = toolLabel block ++ js ": " ++ take 200 s)).
Proof.
  rewrite scanBlock_split. destruct (isToolCall block); [|by intros ?%elem_of_nil].
  rewrite toolHits_toolRuleHits. intros [Hh|Hh]%elem_of_app.
  - unfold toolRuleHits in Hh.
    apply list_elem_of_In, in_flat_map in Hh as (rule & Hr & Hh).
    apply in_flat_map in Hh as (tr & Htr & Hh).
    destruct (decide (toolRuleApplies tr block)) as [Ha|]; [|done].
    destruct Hh as [<-|[]]. exists rule. cbn.
    split; [by apply list_elem_of_In|]. do 4 (split; [reflexivity|]).
    left. destruct (Compiled.toolRules rule) as [trs|]; [|done].
    exists trs, tr. split_and!; try done. by apply list_elem_of_In.
  - apply list_elem_of_In, in_map_iff in Hh as ([rule s] & <- & Hm).
    unfold blockPatternMatches in Hm.
    destruct (blockSrc block) as [src|] eqn:Hsrc; [|done].
    destruct (truthy src) eqn:Ht; [|done].
    apply list_elem_of_In, patternMatches_sound in Hm as (Hr & Htb & Hs & Ex).
    cbn [fst snd] in *. exists rule. unfold patternHit.
    cbn [Hit.msgId Hit.command Hit.category Hit.severity Hit.label fst snd].
    split; [done|]. do 4 (split; [reflexivity|]). right.
    apply existsb_exists in Ex as (rx & Hrx & Hmatch).
    apply walk_occursIn in Hs as [Ho Hl].
    exists src, s, rx. rewrite patternCommand_toolLabel.
    split_and!; try done.
    + unfold isToolBased in Htb. by destruct (Compiled.toolRules rule).
    + by apply list_elem_of_In.
Qed.

(** The hit of the scenario with [rm -rf] has a rule behind it. *)
Lemma scanBlock_hit_sound_witness :
  exists rule,
    rule ∈ rmCompiled /\
    Hit.category (rmHit None) = Compiled.category rule /\
    Hit.severity (rmHit None) = Compiled.severity rule.
Proof.
  destruct (scanBlock_hit_sound rmCompiled None
              (execBlock "arguments" rmCommand) (rmHit None))
    as (rule & Hr & _ & Hc & Hs & _).
  - vm_compute. left.
  - by exists rule.
Defined.

(** X4. A line whose scan throws ends the scan of the file: the lines after
    it contribute nothing, whatever they are. *)
Theorem scanSession_stops_at_throw (compiled : list Compiled.t)
    (pre post : list json) (obj : json) :
  lineCompletes obj = false ->
  scanSession compiled (pre ++ obj :: post) = scanSession compiled (pre ++ [obj]).
Proof.
  intros Hc. induction pre as [|x pre IH]; cbn [app scanSession].
  - rewrite scanLine_completes, Hc. reflexivity.
  - by rewrite IH.
Qed.

(** After a line that is [null], a dangerous command goes unseen. *)
Lemma scanSession_stops_at_throw_witness :
  scanSession rmCompiled
    ([] ++ JNull
        :: [assistantMessage (JStr (js "m1")) [execBlock "arguments" rmCommand]])
  = scanSession rmCompiled ([] ++ [JNull]).
Proof.
  apply (scanSession_stops_at_throw rmCompiled []
           [assistantMessage (JStr (js "m1")) [execBlock "arguments" rmCommand]]
           JNull).
  reflexivity.
Defined.



(** *** The [i] flag *)

Ltac case_ranges :=
  repeat (match goal with
          | |- context [(?a <=? ?b)%N] => destruct (N.leb_spec a b)
          | |- context [(?a =? ?b)%N] => destruct (N.eqb_spec a b)
          end; cbn [andb orb negb]);
  try reflexivity; try lia.

Lemma swapcase_cases (x : N) :
  ((65 <= x <= 90)%N /\ Regex.swapcase x = (x + 32)%N)
  \/ ((97 <= x <= 122)%N /\ Regex.swapcase x = (x - 32)%N)
  \/ ((x < 65 \/ 90 < x < 97 \/ 122 < x)%N /\ Regex.swapcase x = x).
Proof. unfold Regex.swapcase, Regex.in_range. case_ranges. Qed.

Lemma swapcase_involutive (x : N) : Regex.swapcase (Regex.swapcase x) = x.
Proof.
  destruct (swapcase_cases x) as [[H ->]|[[H ->]|[H ->]]];
    [| |by destruct (swapcase_cases x) as [[? ?]|[[? ?]|[? ?]]]; try lia];
    [destruct (swapcase_cases (x + 32)) as [[? ?]|[[? ->]|[? ?]]]
    |destruct (swapcase_cases (x - 32)) as [[? ->]|[[? ?]|[? ?]]]]; lia.
Qed.

Lemma mem_swapcase (c : Regex.cset) (x : N) :
  Regex.mem c (Regex.swapcase x) = Regex.mem c x.
Proof.
  induction c as [| |lo hi| | | |c IH|a IHa b IHb]; cbn [Regex.mem].
  - reflexivity.
  - destruct (swapcase_cases x) as [[H ->]|[[H ->]|[H ->]]];
      unfold Regex.isLineTerminator; case_ranges.
  - rewrite swapcase_involutive. apply orb_comm.
  - destruct (swapcase_cases x) as [[H ->]|[[H ->]|[H ->]]];
      unfold isWhiteSpace; case_ranges.
  - destruct (swapcase_cases x) as [[H ->]|[[H ->]|[H ->]]];
      unfold Regex.in_range; case_ranges.
  - destruct (swapcase_cases x) as [[H ->]|[[H ->]|[H ->]]];
      unfold Regex.isWordChar, Regex.in_range; case_ranges.
  - by rewrite IH.
  - by rewrite IHa, IHb.
Qed.

Lemma deriv_swapcase (r : Regex.re) (x : N) :
  Regex.deriv (Regex.swapcase x) r = Regex.deriv x r.
Proof.
  induction r as [| |c|a IHa b IHb|a IHa b IHb|a IH]; cbn;
    rewrite ?mem_swapcase, ?IHa, ?IHb, ?IH; reflexivity.
Qed.

Lemma matches_swapcase (s : jsstring) :
  forall r, Regex.matches r (map Regex.swapcase s) = Regex.matches r s.
Proof.
  induction s as [|x s IH]; intros r; cbn; [done|].
  by rewrite deriv_swapcase, IH.
Qed.

(** X6. The expressions are compiled with the [i] flag: whether a rule
    matches a string does not depend on the case of its ASCII letters. *)
Theorem test_ignores_ascii_case (rx : Regex.re) (s : jsstring) :
  Regex.test rx (map Regex.swapcase s) = Regex.test rx s.
Proof. unfold Regex.test. apply matches_swapcase. Qed.

(** ** More on the entry parser *)

Lemma numberFrom_fst (lines : list jsstring) :
  forall i, map fst (numberFrom i lines) = seq i (length lines).
Proof.
  induction lines as [|l lines IH]; intros i; cbn; [done|]. by rewrite IH.
Qed.

Lemma entryLine_lineEntry JSON_parse perr (il : nat * jsstring) :
  entryLine (lineEntry JSON_parse perr il) = S il.1.
Proof.
  rewrite lineEntry_decodeLine.
  by destruct (decodeLine JSON_parse perr (trim il.2)).
Qed.

Lemma parseJSONL_entries JSON_parse perr (text : jsstring) :
  ParseResult.entries (parseJSONL JSON_parse perr text)
  = map (lineEntry JSON_parse perr)
      (List.filter (fun il => nonBlank il.2) (numberFrom 0 (split 10 text)))
  /\ ParseResult.parseErrors (parseJSONL JSON_parse perr text)
     = omap entryError (ParseResult.entries (parseJSONL JSON_parse perr text))
  /\ ParseResult.totalLines (parseJSONL JSON_parse perr text)
     = length (ParseResult.entries (parseJSONL JSON_parse perr text)).
Proof. unfold parseJSONL. rewrite parseLoop_spec. cbn. done. Qed.

Lemma StronglySorted_filter {A} (R : A -> A -> Prop) (p : A -> bool) (l : list A) :
  StronglySorted R l -> StronglySorted R (List.filter p l).
Proof.
  induction 1 as [|x l Hs IH Hx]; cbn; [constructor|].
  destruct (p x); [|exact IH]. constructor; [exact IH|].
  apply Forall_forall. intros y Hy%list_elem_of_In%filter_In.
  rewrite Forall_forall in Hx. apply Hx, list_elem_of_In. tauto.
Qed.

Lemma StronglySorted_map {A B} (R : A -> A -> Prop) (R' : B -> B -> Prop)
    (f : A -> B) (l : list A) :
  (forall a b, R a b -> R' (f a) (f b)) ->
  StronglySorted R l -> StronglySorted R' (map f l).
Proof.
  intros Hf. induction 1 as [|x l Hs IH Hx]; cbn; constructor; [exact IH|].
  rewrite Forall_forall in Hx. apply Forall_forall.
  intros y (z & <- & Hz)%list_elem_of_In%in_map_iff.
  apply Hf, Hx, list_elem_of_In, Hz.
Qed.

Lemma numberFrom_sorted (lines : list jsstring) :
  forall i, StronglySorted (fun a b : nat * jsstring => a.1 < b.1)
              (numberFrom i lines).
Proof.
  induction lines as [|l lines IH]; intros i; cbn; constructor; [apply IH|].
  apply Forall_forall. intros [j x] Hj%list_elem_of_In%numberFrom_lookup. cbn. lia.
Qed.

(** X7. The entries are in file order: their line numbers increase strictly,
    each is the 1-based number of a line of the text, and a parse-error
    entry carries the same number in its error record. *)
Theorem parseJSONL_line_numbers
    (JSON_parse : jsstring -> json + jsstring)
    (propertySetError : json -> jsstring) (text : jsstring) :
  let r := parseJSONL JSON_parse propertySetError text in
  StronglySorted lt (map entryLine (ParseResult.entries r))
  /\ (forall e, e ∈ ParseResult.entries r ->
        1 <= entryLine e <= length (split 10 text))
  /\ (forall e err, e ∈ ParseResult.entries r -> entryError e = Some err ->
        ParseError.line err = entryLine e).
Proof.
  intros r. subst r.
  destruct (parseJSONL_entries JSON_parse propertySetError text) as (-> & _ & _).
  split; [|split].
  - rewrite map_map.
    eapply StronglySorted_map;
      [|apply StronglySorted_filter, (numberFrom_sorted _ 0)].
    intros a b Hab. rewrite !entryLine_lineEntry. cbn in Hab. lia.
  - intros e He. apply list_elem_of_In, in_map_iff in He as (il & <- & Hil).
    rewrite entryLine_lineEntry. apply filter_In in Hil as [Hil _].
    destruct il as [i l]. apply numberFrom_lookup in Hil as [_ Hl].
    apply lookup_lt_Some in Hl. cbn. lia.
  - intros e err He Herr.
    apply list_elem_of_In, in_map_iff in He as (il & <- & Hil).
    rewrite entryLine_lineEntry. rewrite lineEntry_decodeLine in Herr.
    destruct (decodeLine JSON_parse propertySetError (trim il.2)); [done|].
    cbn in Herr. by injection Herr as <-.
Qed.

(** X8. The footer of the viewer shows [totalLines - parseErrors.length]
    lines as parsed: that is the number of decoded entries, and the
    errors are never more than the lines. *)
Theorem parseJSONL_footer_counts
    (JSON_parse : jsstring -> json + jsstring)
    (propertySetError : json -> jsstring) (text : jsstring) :
  let r := parseJSONL JSON_parse propertySetError text in
  length (ParseResult.parseErrors r) <= ParseResult.totalLines r
  /\ ParseResult.totalLines r - length (ParseResult.parseErrors r)
     = length (List.filter isDecoded (ParseResult.entries r)).
Proof.
  intros r. subst r.
  destruct (parseJSONL_entries JSON_parse propertySetError text) as (_ & -> & ->).
  generalize (ParseResult.entries (parseJSONL JSON_parse propertySetError text)).
  intros es.
  assert (H : length (omap entryError es) + length (List.filter isDecoded es)
              = length es).
  { induction es as [|[obj n|err n] es IH]; cbn; [done|lia|lia]. }
  lia.
Qed.

Lemma trimStart_length (s : jsstring) : length (trimStart s) <= length s.
Proof.
  induction s as [|c s IH]; cbn; [done|]. destruct (isWhiteSpace c); cbn; lia.
Qed.

(** X9. The copy of a failed line kept in a parse error is never empty and
    never longer than 203 code units: it is the trimmed line when that
    has at most 200 code units, and otherwise its first 200 code units
    and the marker of three code units (U+201A, U+00C4, U+00B6) that
    the source appends. *)
Theorem parseError_raw_bounded
    (JSON_parse : jsstring -> json + jsstring)
    (propertySetError : json -> jsstring) (text : jsstring)
    (err : ParseError.t) :
  err ∈ ParseResult.parseErrors (parseJSONL JSON_parse propertySetError text) ->
  1 <= length (ParseError.raw err) <= 203
  /\ (200 < length (ParseError.raw err) ->
      length (ParseError.raw err) = 203
      /\ drop 200 (ParseError.raw err) = [8218%N; 196%N; 182%N]).
Proof.
  destruct (parseJSONL_entries JSON_parse propertySetError text) as (He & -> & _).
  rewrite He. intros (e & Hin & Herr)%list_elem_of_omap.
  apply list_elem_of_In, in_map_iff in Hin as ([i l] & <- & Hil).
  apply filter_In in Hil as [_ Hnb]. cbn in Hnb.
  rewrite lineEntry_decodeLine in Herr. cbn [fst snd] in Herr.
  destruct (decodeLine JSON_parse propertySetError (trim l)); [done|].
  cbn in Herr. injection Herr as <-. cbn [ParseError.raw].
  assert (Hne : 1 <= length (trim l)).
  { unfold nonBlank in Hnb. apply negb_true_iff in Hnb.
    destruct (trim l); [done|cbn; lia]. }
  rewrite truncateRaw_spec.
  destruct (decide (length (trim l) <= 200)) as [Hle|Hgt].
  - clear - Hne Hle. split; lia.
  - assert (Hlen : length (take 200 (trim l)) = 200)
      by (rewrite length_take; lia).
    rewrite length_app, Hlen. cbn [length ellipsis].
    split; [lia|]. intros _. split; [lia|].
    by rewrite drop_app_length'.
Qed.

(** The error of the line of 250 letters: cut, marked, 203 code units. *)
Lemma parseError_raw_bounded_witness :
  let raw := repeat 120%N 200 ++ [8218%N; 196%N; 182%N] in
  1 <= length raw <= 203
  /\ (200 < length raw ->
      length raw = 203 /\ drop 200 raw = [8218%N; 196%N; 182%N]).
Proof.
  apply (parseError_raw_bounded sampleParse (fun _ => js "TypeError") longText
           (ParseError.mk 3 (repeat 120%N 200 ++ [8218%N; 196%N; 182%N])
              (js "Unexpected token"))).
  vm_compute. left.
Defined.

Lemma split_nonempty (sep : N) (s : jsstring) : split sep s <> [].
Proof.
  destruct s as [|c s]; cbn; [done|].
  destruct (N.eqb c sep); [done|]. by destruct (split sep s).
Qed.

Lemma split_app (sep : N) (a b : jsstring) :
  split sep (a ++ sep :: b) = split sep a ++ split sep b.
Proof.
  induction a as [|c a IH]; cbn.
  - by rewrite N.eqb_refl.
  - destruct (N.eqb c sep); [by rewrite IH|]. rewrite IH.
    pose proof (split_nonempty sep a). by destruct (split sep a).
Qed.

Lemma numberFrom_app (l1 l2 : list jsstring) :
  forall i, numberFrom i (l1 ++ l2)
            = numberFrom i l1 ++ numberFrom (i + length l1) l2.
Proof.
  induction l1 as [|x l1 IH]; intros i; cbn.
  - by rewrite Nat.add_0_r.
  - rewrite IH. do 3 f_equal. lia.
Qed.

(** X10. Appending lines to a session file keeps what was parsed before: the
    entries, errors and line count of the longer text are those of the
    shorter one followed by those of the new lines, whose line numbers
    come after the old ones. *)
Theorem parseJSONL_append
    (JSON_parse : jsstring -> json + jsstring)
    (propertySetError : json -> jsstring) (a b : jsstring) :
  let r := parseJSONL JSON_parse propertySetError a in
  let r' := parseJSONL JSON_parse propertySetError (a ++ 10%N :: b) in
  exists more,
    ParseResult.entries r' = ParseResult.entries r ++ more
    /\ ParseResult.parseErrors r'
       = ParseResult.parseErrors r ++ omap entryError more
    /\ ParseResult.totalLines r' = ParseResult.totalLines r + length more
    /\ (forall e, e ∈ more -> length (split 10 a) < entryLine e).
Proof.
  intros r r'. subst r r'.
  destruct (parseJSONL_entries JSON_parse propertySetError a) as (Ha & Hea & Hta).
  destruct (parseJSONL_entries JSON_parse propertySetError (a ++ 10%N :: b))
    as (Hb & Heb & Htb).
  rewrite Htb, Hta, Heb, Hea, Hb, Ha.
  rewrite split_app, numberFrom_app, List.filter_app, map_app. cbn [Nat.add].
  eexists. split; [reflexivity|]. split; [apply omap_app|].
  split; [by rewrite length_app|].
  intros e (il & <- & Hil)%list_elem_of_In%in_map_iff.
  rewrite entryLine_lineEntry. apply filter_In in Hil as [Hil _].
  destruct il as [i l]. apply numberFrom_lookup in Hil as [Hle _]. cbn. lia.
Qed.

(** ** The message counts of the server and of the viewer *)

Lemma isMessage_lineEntry JSON_parse perr (il : nat * jsstring) :
  isMessage (lineEntry JSON_parse perr il)
  = match JSON_parse (trim il.2) with
    | inl obj =>
        match prop "type" obj with
        | Some t => strict_eq t (JStr (js "message"))
        | None => false
        end
    | inr _ => false
    end.
Proof.
  rewrite lineEntry_decodeLine. unfold decodeLine, isMessage, entryType.
  destruct (JSON_parse (trim il.2)) as [[]|]; reflexivity.
Qed.

Lemma countMessages_filter (JSON_parse : jsstring -> json + jsstring)
    (lines : list jsstring) :
  forall total,
    foldl (fun total line =>
             if countsLine JSON_parse line then (total + 1)%Z else total)
      total lines
    = (total + Z.of_nat (length (List.filter (countsLine JSON_parse) lines)))%Z.
Proof.
  induction lines as [|l lines IH]; intros total; cbn [foldl List.filter].
  - cbn. lia.
  - rewrite IH. destruct (countsLine JSON_parse l); cbn [length]; lia.
Qed.

(** X11. When [JSON.parse] gives the same on each line as on the trimmed
    line (the white space around the lines is white space of JSON), the
    count of [/api/counts] for a file is the number of message entries
    that [parseJSONL] gives the viewer for it. *)
Theorem counts_agree_with_viewer
    (JSON_parse : jsstring -> json + jsstring)
    (propertySetError : json -> jsstring) (text : jsstring) :
  (forall l, l ∈ split 10 text -> JSON_parse l = JSON_parse (trim l)) ->
  countMessages JSON_parse text
  = Z.of_nat (length (List.filter isMessage
       (ParseResult.entries (parseJSONL JSON_parse propertySetError text)))).
Proof.
  intros Hws. unfold countMessages. rewrite countMessages_filter, Z.add_0_l.
  f_equal.
  destruct (parseJSONL_entries JSON_parse propertySetError text) as (-> & _ & _).
  revert Hws. generalize (split 10 text). intros lines. generalize 0.
  induction lines as [|l lines IH]; intros i Hws; cbn [List.filter numberFrom]; [done|].
  cbn [snd]. unfold countsLine at 1, nonBlank at 1.
  destruct (str_eqb (trim l) []) eqn:E; cbn [negb].
  - apply IH. intros x Hx. apply Hws. by right.
  - cbn [map List.filter]. rewrite isMessage_lineEntry. cbn [snd].
    rewrite (Hws l) by left.
    destruct (JSON_parse (trim l)) as [obj|];
      [destruct (prop "type" obj) as [t|]; [destruct (strict_eq t _)|]|];
      cbn [length]; rewrite (IH (S i)); try done;
      intros x Hx; apply Hws; by right.
Qed.

(** Two messages in three lines, for the server and for the viewer. *)
Lemma counts_agree_with_viewer_witness :
  countMessages sampleParse sampleText
  = Z.of_nat (length (List.filter isMessage
       (ParseResult.entries
          (parseJSONL sampleParse (fun _ => js "TypeError") sampleText)))).
Proof.
  apply (counts_agree_with_viewer sampleParse (fun _ => js "TypeError") sampleText).
  intros l Hl. vm_compute in Hl.
  repeat (apply elem_of_cons in Hl as [->|Hl]; [vm_compute; reflexivity|]).
  by apply elem_of_nil in Hl.
Defined.

(** ** More on [readSession] *)

Lemma properSegment_spec (seg : jsstring) :
  properSegment seg = true ->
  seg <> [] /\ seg <> js "." /\ seg <> js ".." /\ 47%N ∉ seg.
Proof.
  unfold properSegment, str_eqb. rewrite !andb_true_iff, !negb_true_iff.
  rewrite !bool_decide_eq_false. intros [[[H1 H2] H3] H4]. split_and!; try done.
  intros Hin. rewrite forallb_forall in H4.
  apply list_elem_of_In, H4 in Hin. by rewrite N.eqb_refl in Hin.
Qed.

Lemma split_no_sep (sep : N) (s : jsstring) :
  sep ∉ s -> split sep s = [s].
Proof.
  induction s as [|c s IH]; cbn; [done|]. intros Hn.
  destruct (N.eqb_spec c sep) as [->|Hc]; [set_solver|].
  rewrite IH; [done|set_solver].
Qed.

Lemma split_join (segs : list jsstring) :
  segs <> [] -> Forall (fun seg => 47%N ∉ seg) segs ->
  split 47 (join (js "/") segs) = segs.
Proof.
  induction segs as [|x segs IH]; [done|]. intros _ Hall.
  apply Forall_cons in Hall as [Hx Hall].
  destruct segs as [|y segs]; [by apply split_no_sep|].
  change (join (js "/") (x :: y :: segs))
    with (x ++ 47%N :: join (js "/") (y :: segs)).
  rewrite split_app, split_no_sep, IH by done. reflexivity.
Qed.

Lemma join_snoc (segs : list jsstring) (x : jsstring) :
  segs <> [] ->
  join (js "/") (segs ++ [x]) = join (js "/") segs ++ js "/" ++ x.
Proof.
  induction segs as [|y segs IH]; [done|]. intros _.
  destruct segs as [|z segs]; [reflexivity|].
  change (join (js "/") ((y :: z :: segs) ++ [x]))
    with (y ++ js "/" ++ join (js "/") ((z :: segs) ++ [x])).
  rewrite IH by done.
  change (join (js "/") (y :: z :: segs))
    with (y ++ js "/" ++ join (js "/") (z :: segs)).
  by rewrite <- !app_assoc.
Qed.

Lemma normStep_proper (kept : list jsstring) (seg : jsstring) :
  properSegment seg = true -> Path.normStep kept seg = seg :: kept.
Proof.
  intros (H1 & H2 & H3 & _)%properSegment_spec. unfold Path.normStep, str_eqb.
  by rewrite !bool_decide_false.
Qed.

Lemma foldl_normStep_proper (segs kept : list jsstring) :
  forallb properSegment segs = true ->
  foldl Path.normStep kept segs = rev segs ++ kept.
Proof.
  revert kept. induction segs as [|x segs IH]; intros kept; cbn; [done|].
  intros [Hx Hs]%andb_true_iff. rewrite normStep_proper, IH by done.
  by rewrite <- app_assoc.
Qed.

Lemma proper_no_sep (segs : list jsstring) :
  forallb properSegment segs = true -> Forall (fun seg => 47%N ∉ seg) segs.
Proof.
  rewrite forallb_forall. intros H. apply Forall_forall. intros x Hx.
  apply list_elem_of_In, H, properSegment_spec in Hx. tauto.
Qed.

Lemma isAbsolute_proper (seg : jsstring) :
  properSegment seg = true -> Path.isAbsolute seg = false.
Proof.
  intros (H1 & _ & _ & H4)%properSegment_spec. destruct seg as [|c seg]; [done|].
  cbn. apply N.eqb_neq. intros ->. apply H4. left.
Qed.

Lemma normalize_absPath (segs extra : list jsstring) :
  segs <> [] -> forallb properSegment segs = true ->
  Forall (fun seg => 47%N ∉ seg) extra -> extra <> [] ->
  split 47 (absPath segs ++ js "/" ++ join (js "/") extra)
  = [] :: segs ++ extra.
Proof.
  intros Hne Hp He Hne'. unfold absPath.
  change (js "/" ++ join (js "/") segs ++ js "/" ++ join (js "/") extra)
    with ([] ++ 47%N :: (join (js "/") segs ++ 47%N :: join (js "/") extra)).
  rewrite <- app_assoc.
  change (js "/" ++ join (js "/") segs ++ js "/" ++ join (js "/") extra)
    with ([] ++ 47%N :: (join (js "/") segs ++ 47%N :: join (js "/") extra)).
  rewrite !split_app, !split_join by (try done; by apply proper_no_sep).
  reflexivity.
Qed.

(** X12. A request for a plain file name is served from the sessions
    directory: for a directory given by an absolute path of proper
    segments, the name resolves to the file of that name in it, passes
    the test, and the file is read (or [null] returned when there is
    none). *)
Theorem readSession_plain_name (segs : list jsstring) (name cwd : jsstring)
    (fs : jsstring -> option fsnode) :
  segs <> [] -> forallb properSegment segs = true ->
  properSegment name = true ->
  Path.resolve cwd (absPath segs) name = absPath segs ++ js "/" ++ name
  /\ readSession (absPath segs) cwd fs name
     = readFile fs (absPath segs ++ js "/" ++ name).
Proof.
  intros Hne Hp Hn.
  assert (Hres : Path.resolve cwd (absPath segs) name
                 = absPath segs ++ js "/" ++ name).
  { unfold Path.resolve. rewrite isAbsolute_proper by done.
    change (Path.isAbsolute (absPath segs)) with true. cbn match.
    unfold Path.normalize.
    change name with (join (js "/") [name]) at 1.
    rewrite normalize_absPath; try done.
    - cbn [foldl]. change (Path.normStep [] []) with (@nil jsstring).
      rewrite foldl_normStep_proper, app_nil_r, rev_involutive.
      + rewrite join_snoc by done. unfold absPath. by rewrite <- !app_assoc.
      + rewrite forallb_app, Hp. cbn. by rewrite Hn.
    - constructor; [|constructor]. apply properSegment_spec in Hn. tauto. }
  split; [exact Hres|]. unfold readSession. rewrite Hres.
  assert (Hsw : startsWith (absPath segs ++ js "/" ++ name) (absPath segs) = true)
    by (apply startsWith_spec; eauto).
  rewrite Hsw. reflexivity.
Qed.

(** A file name resolved inside the directory of the sessions. *)
Lemma readSession_plain_name_witness :
  Path.resolve (js "/") (absPath [js "data"; js "sessions"]) (js "a.jsonl")
  = absPath [js "data"; js "sessions"] ++ js "/" ++ js "a.jsonl"
  /\ readSession (absPath [js "data"; js "sessions"]) (js "/") siblingFs
       (js "a.jsonl")
     = readFile siblingFs (absPath [js "data"; js "sessions"] ++ js "/" ++ js "a.jsonl").
Proof.
  apply (readSession_plain_name [js "data"; js "sessions"] (js "a.jsonl")
           (js "/") siblingFs).
  - discriminate.
  - reflexivity.
  - reflexivity.
Defined.

Lemma startsWith_app_same (p a b : jsstring) :
  startsWith (p ++ a) (p ++ b) = startsWith a b.
Proof.
  induction p as [|c p IH]; cbn; [done|]. by rewrite N.eqb_refl, IH.
Qed.

Lemma absPath_snoc (init : list jsstring) (x : jsstring) :
  absPath (init ++ [x])
  = (if init is [] then js "/" else absPath init ++ js "/") ++ x.
Proof.
  unfold absPath. destruct init as [|y init]; [reflexivity|].
  rewrite join_snoc by done. by rewrite <- !app_assoc.
Qed.

(** X13. A request that steps out of the sessions directory with one [..] is
    refused exactly when the name it asks for does not begin with the
    name of the sessions directory itself; when it does, the file next to
    the directory is read. *)
Theorem readSession_parent_traversal (init : list jsstring)
    (last name cwd : jsstring) (fs : jsstring -> option fsnode) :
  forallb properSegment init = true -> properSegment last = true ->
  properSegment name = true ->
  Path.resolve cwd (absPath (init ++ [last])) (js "../" ++ name)
  = absPath (init ++ [name])
  /\ readSession (absPath (init ++ [last])) cwd fs (js "../" ++ name)
     = if startsWith name last then readFile fs (absPath (init ++ [name]))
       else Null.
Proof.
  intros Hi Hl Hn.
  assert (Hp : forallb properSegment (init ++ [last]) = true).
  { rewrite forallb_app, Hi. cbn. by rewrite Hl. }
  assert (Hne : init ++ [last] <> []) by (by destruct init).
  assert (Hres : Path.resolve cwd (absPath (init ++ [last])) (js "../" ++ name)
                 = absPath (init ++ [name])).
  { unfold Path.resolve. change (Path.isAbsolute (js "../" ++ name)) with false.
    change (Path.isAbsolute (absPath (init ++ [last]))) with true. cbn match.
    unfold Path.normalize.
    change (js "../" ++ name) with (join (js "/") [js ".."; name]).
    rewrite normalize_absPath; try done.
    - cbn [foldl]. change (Path.normStep [] []) with (@nil jsstring).
      rewrite foldl_app, (foldl_normStep_proper (init ++ [last]) [] Hp), app_nil_r.
      rewrite rev_app_distr. cbn [rev app foldl].
      change (Path.normStep (last :: rev init) (js "..")) with (rev init).
      rewrite normStep_proper by done. cbn [rev].
      by rewrite rev_involutive.
    - constructor.
      { change (js "..") with [46%N; 46%N]. rewrite !not_elem_of_cons.
        split_and!; try done. apply not_elem_of_nil. }
      constructor; [|constructor]. apply properSegment_spec in Hn. tauto. }
  split; [exact Hres|]. unfold readSession. rewrite Hres, !absPath_snoc.
  rewrite startsWith_app_same.
  destruct (startsWith name last); reflexivity.
Qed.

(** The directory next to the one of the sessions, whose name starts
    with the same letters, is reached with one step up. *)
Lemma readSession_parent_traversal_witness :
  Path.resolve (js "/") (absPath ([js "data"] ++ [js "sessions"]))
    (js "../" ++ js "sessions-old")
  = absPath ([js "data"] ++ [js "sessions-old"])
  /\ readSession (absPath ([js "data"] ++ [js "sessions"])) (js "/") siblingFs
       (js "../" ++ js "sessions-old")
     = if startsWith (js "sessions-old") (js "sessions")
       then readFile siblingFs (absPath ([js "data"] ++ [js "sessions-old"]))
       else Null.
Proof.
  apply (readSession_parent_traversal [js "data"] (js "sessions")
           (js "sessions-old") (js "/") siblingFs); reflexivity.
Defined.

(** ** More on the read progress *)

Lemma obj_get_set_ne {V} (k k' : jsstring) (v : V) (o : list (jsstring * V)) :
  k <> k' -> obj_get k (obj_set k' v o) = obj_get k o.
Proof.
  intros Hne. unfold obj_get. induction o as [|[k0 v0] o IH]; cbn.
  - unfold str_eqb. by rewrite bool_decide_false.
  - destruct (str_eqb k' k0) eqn:E; cbn.
    + apply str_eqb_eq in E. subst k0. unfold str_eqb.
      by rewrite !bool_decide_false.
    + by rewrite IH.
Qed.

Lemma progressValid_check (p : Progress) (h : Heap) :
  forallb (fun kl => kl.2 <? length h) p = true -> progressValid (p, h).
Proof.
  intros H k l. unfold obj_get. cbn [fst snd].
  induction p as [|[k' l'] p IH]; cbn; [done|].
  cbn in H. apply andb_true_iff in H as [Hl Hp].
  destruct (str_eqb k k').
  - intros [= <-]. by apply Nat.ltb_lt.
  - by apply IH.
Qed.

Lemma unreadAfter_bounds (id : jsstring) (msgs : list SessionEntry) :
  (0 <= unreadAfter id msgs <= Z.of_nat (length msgs))%Z.
Proof.
  unfold unreadAfter. pose proof (findIndex_messagesAfter id msgs) as H.
  destruct (findIndex (hasId id) msgs), (messagesAfter id msgs); try done; lia.
Qed.

(** X14. Marking a message read never changes an entry that exists: the heap
    only grows by the new entry of the session, so every other key, and
    every state that held the old entries, reads as before. *)
Theorem handleMarkRead_frame (sessions : list SessionRow.t)
    (currentEntries : list SessionEntry) (progress : Progress) (h : Heap)
    (now filename messageId : jsstring) (dangerOnly : bool) :
  progressValid (progress, h) ->
  let st := handleMarkRead dangerOnly sessions currentEntries progress h now
              filename messageId in
  (forall l, l < length h -> st.2 !! l = h !! l)
  /\ (forall k, k <> rowKey (findRow sessions filename) filename ->
        entryOf st k = entryOf (progress, h) k)
  /\ progressValid st.
Proof.
  intros Hv st. subst st. unfold handleMarkRead.
  destruct dangerOnly; [done|]. cbn [fst snd]. split_and!.
  - intros l Hl. by rewrite lookup_app_l.
  - intros k Hk. unfold entryOf. cbn [fst snd]. rewrite obj_get_set_ne by done.
    destruct (obj_get k progress) as [l|] eqn:E; [|done]. cbn.
    apply lookup_app_l. by apply (Hv k).
  - intros k l. cbn [fst snd]. rewrite length_app. cbn.
    destruct (decide (k = rowKey (findRow sessions filename) filename)) as [->|Hne].
    + rewrite obj_get_set_eq. intros [= <-]. lia.
    + rewrite obj_get_set_ne by done. intros H%Hv. cbn in H. lia.
Qed.

(** Marking a message of the session [s2] leaves the entry of the
    session [s1] as it was. *)
Lemma handleMarkRead_frame_witness :
  entryOf (handleMarkRead false [SessionRow.mk (js "b.jsonl") (js "s2")]
             fiveMessages [(js "s1", 0)] [partlyRead]
             (js "2026-01-02T00:00:00.000Z") (js "b.jsonl") (js "m3"))
    (js "s1")
  = Some partlyRead.
Proof.
  destruct (handleMarkRead_frame [SessionRow.mk (js "b.jsonl") (js "s2")]
              fiveMessages [(js "s1", 0)] [partlyRead]
              (js "2026-01-02T00:00:00.000Z") (js "b.jsonl") (js "m3") false)
    as (_ & H & _).
  - apply progressValid_check. reflexivity.
  - rewrite H; [reflexivity|]. vm_compute. discriminate.
Defined.

(** X15. After a message is marked read (outside danger-only mode) the entry
    of the session counts the messages of the session, and its unread
    count lies between 0 and that total; the custom label of the session
    is kept. *)
Theorem handleMarkRead_counts (sessions : list SessionRow.t)
    (currentEntries : list SessionEntry) (progress : Progress) (h : Heap)
    (now filename messageId : jsstring) :
  let pk := rowKey (findRow sessions filename) filename in
  let st := handleMarkRead false sessions currentEntries progress h now
              filename messageId in
  exists e total unread,
    entryOf st pk = Some e
    /\ ProgressEntry.totalMsgs e = Some total
    /\ total = Z.of_nat (length (List.filter isMessage currentEntries))
    /\ ProgressEntry.unreadCount e = Some unread
    /\ (0 <= unread <= total)%Z
    /\ ProgressEntry.customLabel e
       = entryOf (progress, h) pk ≫= ProgressEntry.customLabel.
Proof.
  intros pk st. subst st. unfold handleMarkRead, entryOf. fold pk.
  cbn [fst snd]. rewrite obj_get_set_eq. cbn [mbind option_bind].
  rewrite lookup_app_r, Nat.sub_diag by lia. cbn [lookup list_lookup].
  eexists _, _, _. split_and!; try reflexivity.
  - apply unreadAfter_bounds.
  - apply unreadAfter_bounds.
  - cbn. by destruct (obj_get pk progress ≫= _).
Qed.




Lemma setters_idem (t u : Z) (e : ProgressEntry.t) :
  ProgressEntry.set_unreadCount u
    (ProgressEntry.set_totalMsgs t
       (ProgressEntry.set_unreadCount u (ProgressEntry.set_totalMsgs t e)))
  = ProgressEntry.set_unreadCount u (ProgressEntry.set_totalMsgs t e).
Proof. reflexivity. Qed.

(** X17. [loadSessionData] is idempotent: loading the same entries twice
    gives the state of loading them once. *)
Theorem loadSessionData_idempotent (filename : jsstring)
    (row : option SessionRow.t) (prog : Progress) (h : Heap)
    (entries : list SessionEntry) :
  let st := loadSessionData filename row prog h entries in
  loadSessionData filename row st.1 st.2 entries = st.
Proof.
  intros st. subst st. unfold loadSessionData.
  set (msgs := List.filter isMessage entries).
  set (pk := rowKey row filename).
  assert (Hens : forall p0 h0 l0, ensure pk prog h = (p0, h0, l0) ->
            obj_get pk p0 = Some l0).
  { unfold ensure. intros p0 h0 l0.
    destruct (obj_get pk prog) as [l|] eqn:E; intros [= <- <- <-]; [done|].
    apply obj_get_set_eq. }
  destruct (ensure pk prog h) as [[p0 h0] l0] eqn:Ee.
  specialize (Hens _ _ _ eq_refl).
  set (T := ProgressEntry.set_totalMsgs (Z.of_nat (length msgs))).
  assert (Hid : forall (hh : Heap),
            alter T l0 hh !! l0 ≫= ProgressEntry.lastReadId
            = hh !! l0 ≫= ProgressEntry.lastReadId).
  { intros hh. rewrite list_lookup_alter_eq. by destruct (hh !! l0). }
  assert (Hid' : forall (hh : Heap) u,
            alter (ProgressEntry.set_unreadCount u) l0 hh !! l0
              ≫= ProgressEntry.lastReadId
            = hh !! l0 ≫= ProgressEntry.lastReadId).
  { intros hh u. rewrite list_lookup_alter_eq. by destruct (hh !! l0). }
  rewrite Hid.
  destruct (h0 !! l0 ≫= ProgressEntry.lastReadId) as [[|c lastId]|] eqn:El;
    cbn [fst snd]; rewrite (ensure_present _ _ _ _ Hens), Hid, Hid', Hid, El;
    f_equal; rewrite !list_alter_alter_eq; apply list_alter_ext;
    intros; reflexivity.
Qed.







Lemma obj_get_delete_ne {V} (k k' : jsstring) (o : list (jsstring * V)) :
  k <> k' -> obj_get k (obj_delete k' o) = obj_get k o.
Proof.
  intros Hne. unfold obj_get, obj_delete.
  induction o as [|[k0 v0] o IH]; cbn; [done|].
  destruct (str_eqb k' k0) eqn:E; cbn.
  - apply str_eqb_eq in E. subst k0. unfold str_eqb at 2.
    by rewrite bool_decide_false.
  - by rewrite IH.
Qed.

Lemma obj_get_delete_eq {V} (k : jsstring) (o : list (jsstring * V)) :
  obj_get k (obj_delete k o) = None.
Proof.
  unfold obj_get, obj_delete. induction o as [|[k0 v0] o IH]; cbn; [done|].
  destruct (str_eqb k k0) eqn:E; cbn; [done|]. by rewrite E.
Qed.

Lemma obj_get_Some_fst {V} (k : jsstring) (v : V) (o : list (jsstring * V)) :
  obj_get k o = Some v -> k ∈ map fst o.
Proof.
  unfold obj_get. induction o as [|[k0 v0] o IH]; cbn; [done|].
  destruct (str_eqb k k0) eqn:E.
  - apply str_eqb_eq in E. subst. intros _. left.
  - intros H. right. by apply IH.
Qed.

Lemma migrateKey_keeps (sidMap : list (jsstring * jsstring)) (m : Progress)
    (kv : jsstring * loc) (k : jsstring) (l : loc) :
  isLegacyKey k = false -> obj_get k m = Some l ->
  obj_get k (migrateKey sidMap m kv) = Some l.
Proof.
  intros Hk Hm. unfold migrateKey.
  destruct (isLegacyKey kv.1) eqn:El; [|done].
  assert (k <> kv.1) by congruence.
  rewrite obj_get_delete_ne by done.
  destruct (obj_get kv.1 sidMap) as [[|c sid]|]; try done.
  destruct (obj_get (c :: sid) m) eqn:Es; [done|].
  rewrite obj_get_set_ne; [done|congruence].
Qed.

(** X20. The migration loop never touches an entry kept under a key that is
    not a legacy key: an entry already stored under a session id is
    neither replaced by a migrated one nor removed. *)
Theorem migrateProgress_keeps_other_keys (prog : Progress)
    (sessData : list SessionInfo.t) (k : jsstring) (l : loc) :
  isLegacyKey k = false -> obj_get k prog = Some l ->
  obj_get k (migrateProgress prog sessData) = Some l.
Proof.
  intros Hk. unfold migrateProgress.
  assert (G : forall entries m,
            obj_get k m = Some l ->
            obj_get k (foldl (migrateKey (buildSidMap sessData)) m entries)
            = Some l).
  { induction entries as [|kv entries IH]; intros m Hm; cbn; [done|].
    by apply IH, migrateKey_keeps. }
  apply G.
Qed.

(** An entry under a session id stays where it is. *)
Lemma migrateProgress_keeps_other_keys_witness :
  obj_get (js "s1")
    (migrateProgress [(js "a.jsonl", 0); (js "s1", 1)]
       [SessionInfo.mk (js "a.jsonl") (Some (js "s1"))])
  = Some 1.
Proof.
  apply (migrateProgress_keeps_other_keys [(js "a.jsonl", 0); (js "s1", 1)]
           [SessionInfo.mk (js "a.jsonl") (Some (js "s1"))] (js "s1") 1);
    reflexivity.
Defined.

Lemma buildSidMap_values (sessData : list SessionInfo.t) (f sid : jsstring) :
  obj_get f (buildSidMap sessData) = Some sid ->
  exists s, s ∈ sessData /\ SessionInfo.sessionId s = Some sid.
Proof.
  unfold buildSidMap.
  assert (G : forall m,
            (forall f sid, obj_get f m = Some sid ->
               exists s, s ∈ sessData /\ SessionInfo.sessionId s = Some sid) ->
            forall (l : list SessionInfo.t), l ⊆ sessData ->
            forall f sid,
              obj_get f (foldl (fun m s =>
                 match SessionInfo.sessionId s with
                 | Some (c :: sid) => obj_set (SessionInfo.filename s) (c :: sid) m
                 | _ => m
                 end) m l) = Some sid ->
              exists s, s ∈ sessData /\ SessionInfo.sessionId s = Some sid).
  { intros m Hm l. revert m Hm. induction l as [|s l IH]; intros m Hm Hsub; cbn.
    - exact Hm.
    - apply IH; [|set_solver]. intros f' sid'.
      destruct (SessionInfo.sessionId s) as [[|c sd]|] eqn:Es; try apply Hm.
      destruct (decide (f' = SessionInfo.filename s)) as [->|Hne].
      + rewrite obj_get_set_eq. intros [= <-]. exists s. split; [set_solver|done].
      + rewrite obj_get_set_ne by done. apply Hm. }
  apply (G [] (fun _ _ H => ltac:(done)) sessData). done.
Qed.

(** X21. When no session id looks like a legacy key, the working copy has no
    legacy key left after the migration loop, whether a session id was
    known for the key or not. *)
Theorem migrateProgress_removes_legacy_keys (prog : Progress)
    (sessData : list SessionInfo.t) (k : jsstring) :
  (forall s sid, s ∈ sessData -> SessionInfo.sessionId s = Some sid ->
                 isLegacyKey sid = false) ->
  isLegacyKey k = true ->
  obj_get k (migrateProgress prog sessData) = None.
Proof.
  intros Hsid Hk. unfold migrateProgress.
  assert (G : forall entries m,
            (forall l, obj_get k m = Some l -> k ∈ map fst entries) ->
            obj_get k (foldl (migrateKey (buildSidMap sessData)) m entries) = None).
  { induction entries as [|kv entries IH]; intros m Hm; cbn.
    - destruct (obj_get k m) as [l|] eqn:E; [|done].
      specialize (Hm l eq_refl). by apply elem_of_nil in Hm.
    - apply IH. intros l. unfold migrateKey.
      destruct (isLegacyKey kv.1) eqn:El.
      + destruct (decide (k = kv.1)) as [->|Hne];
          [by rewrite obj_get_delete_eq|].
        rewrite obj_get_delete_ne by done.
        assert (Hin : forall l', obj_get k m = Some l' -> k ∈ map fst entries).
        { intros l' H. apply Hm in H. cbn in H.
          apply elem_of_cons in H as [->|H]; done. }
        destruct (obj_get kv.1 (buildSidMap sessData)) as [[|c sid]|] eqn:Es;
          try apply Hin.
        destruct (obj_get (c :: sid) m); [apply Hin|].
        destruct (decide (k = c :: sid)) as [->|Hne'].
        * apply buildSidMap_values in Es as (s & Hs & Hsd).
          rewrite (Hsid s _ Hs Hsd) in Hk. done.
        * rewrite obj_get_set_ne by done. apply Hin.
      + intros H. apply Hm in H. cbn in H.
        apply elem_of_cons in H as [->|H]; [congruence|done]. }
  apply G. intros l. apply obj_get_Some_fst.
Qed.

(** The working copy has nothing under the file name afterwards. *)
Lemma migrateProgress_removes_legacy_keys_witness :
  obj_get (js "a.jsonl")
    (migrateProgress [(js "a.jsonl", 0); (js "s1", 1)]
       [SessionInfo.mk (js "a.jsonl") (Some (js "s1"))])
  = None.
Proof.
  apply (migrateProgress_removes_legacy_keys [(js "a.jsonl", 0); (js "s1", 1)]
           [SessionInfo.mk (js "a.jsonl") (Some (js "s1"))] (js "a.jsonl")).
  - intros s sid Hs. apply list_elem_of_singleton in Hs. subst s.
    intros [= <-]. reflexivity.
  - reflexivity.
Defined.

(** X22. When a session with a read position grows, the step of the change
    handler adds the new messages to its unread count: from [u] unread
    of [n] messages to [u] and the growth unread of the new total, which
    stays between 0 and that total. *)
Theorem recomputeRow_adds_growth (counts : list (jsstring * Z))
    (p : Progress) (h : Heap) (s : SessionInfo.t) (l : loc)
    (e : ProgressEntry.t) (n u : Z) :
  obj_get (SessionInfo.key s) p = Some l -> h !! l = Some e ->
  ProgressEntry.noLastRead e = false ->
  ProgressEntry.totalMsgs e = Some n ->
  ProgressEntry.unreadCount e = Some u ->
  (0 <= u <= n)%Z -> (n <= countOf counts (SessionInfo.filename s))%Z ->
  let total := countOf counts (SessionInfo.filename s) in
  let st := recomputeRow counts (p, h) s in
  entryOf st (SessionInfo.key s)
    = Some (ProgressEntry.set_unreadCount (u + (total - n))
              (ProgressEntry.set_totalMsgs total e))
  /\ (0 <= u + (total - n) <= total)%Z.
Proof.
  intros Hp Hh Hlr Htot Hun Hu Hn total st. subst st. split; [|lia].
  unfold recomputeRow, entryOf. cbn [fst snd].
  rewrite (ensure_present _ _ _ _ Hp), Hp. cbn [mbind option_bind].
  rewrite Hh. cbn [mbind option_bind]. rewrite Htot. cbn [default].
  rewrite list_lookup_alter_eq, Hh. cbn [fmap option_fmap option_map].
  replace (ProgressEntry.noLastRead (ProgressEntry.set_totalMsgs _ e))
    with false by (by destruct e).
  replace (ProgressEntry.unreadCount (ProgressEntry.set_totalMsgs _ e))
    with (Some u) by (by destruct e).
  cbn [fst snd default]. rewrite Hp. cbn [mbind option_bind].
  rewrite !list_lookup_alter_eq, Hh. cbn. do 2 f_equal. fold total. lia.
Qed.

(** Five messages of which three are unread, grown to seven: five
    unread. *)
Lemma recomputeRow_adds_growth_witness :
  entryOf (recomputeRow [(js "a.jsonl", 7%Z)] ([(js "s1", 0)], [partlyRead])
             (SessionInfo.mk (js "a.jsonl") (Some (js "s1"))))
    (js "s1")
  = Some (ProgressEntry.set_unreadCount 5
            (ProgressEntry.set_totalMsgs 7 partlyRead)).
Proof.
  refine (proj1 (recomputeRow_adds_growth [(js "a.jsonl", 7%Z)] [(js "s1", 0)]
                   [partlyRead] (SessionInfo.mk (js "a.jsonl") (Some (js "s1")))
                   0 partlyRead 5%Z 3%Z eq_refl eq_refl eq_refl eq_refl eq_refl
                   _ _)).
  - lia.
  - vm_compute. discriminate.
Defined.

(** ** The CSV of labels *)

Lemma trimStart_sub (s : jsstring) (x : N) : x ∈ trimStart s -> x ∈ s.
Proof.
  induction s as [|c s IH]; cbn; [done|].
  destruct (isWhiteSpace c); [|done]. intros H. right. by apply IH.
Qed.

Lemma trim_sub (s : jsstring) (x : N) : x ∈ trim s -> x ∈ s.
Proof.
  unfold trim. rewrite !list_elem_of_In, <- in_rev, <- !list_elem_of_In.
  intros H%trimStart_sub. apply trimStart_sub.
  by rewrite list_elem_of_In, in_rev, <- list_elem_of_In.
Qed.

Lemma csvLoop_no_quote (line : jsstring) :
  forall r cur q,
    Forall (fun f => 34%N ∉ f) r -> 34%N ∉ cur ->
    Forall (fun f => 34%N ∉ f) (csvLoop line r cur q).
Proof.
  induction line as [|ch rest IH]; intros r cur q Hr Hc; cbn.
  - apply Forall_app. split; [done|]. constructor; [|done].
    intros H%trim_sub. done.
  - destruct (N.eqb_spec ch 34) as [->|Hne]; [by apply IH|].
    destruct (_ && _).
    + apply IH; [|apply not_elem_of_nil].
      apply Forall_app. split; [done|]. constructor; [|done].
      by intros H%trim_sub.
    + apply IH; [done|]. rewrite elem_of_app, list_elem_of_singleton.
      intros [H|H]; [done|]. by subst.
Qed.

(** X23. No field that [parseCSVLine] returns contains a double quote:
    every quote of the line only switches the quoting state. *)
Theorem parseCSVLine_drops_quotes (line f : jsstring) :
  f ∈ parseCSVLine line -> 34%N ∉ f.
Proof.
  intros Hf.
  assert (H : Forall (fun f => 34%N ∉ f) (parseCSVLine line)).
  { apply csvLoop_no_quote; [constructor|apply not_elem_of_nil]. }
  rewrite Forall_forall in H. by apply H.
Qed.

(** The quoted field of a line comes out without its quotes. *)
Lemma parseCSVLine_drops_quotes_witness : 34%N ∉ js "Hello, world".
Proof.
  apply (parseCSVLine_drops_quotes
           (js "Alice," ++ [34%N] ++ js "Hello, world" ++ [34%N])).
  vm_compute. right. left.
Defined.

Lemma csvLoop_plain (line : jsstring) :
  forall r cur,
    34%N ∉ line ->
    csvLoop line r cur false
    = r ++ map trim (match split 44 line with
                     | x :: xs => (cur ++ x) :: xs
                     | [] => []
                     end).
Proof.
  induction line as [|ch rest IH]; intros r cur Hq; cbn.
  - by rewrite app_nil_r.
  - apply not_elem_of_cons in Hq as [Hne Hq].
    destruct (N.eqb_spec ch 34) as [->|_]; [done|].
    destruct (N.eqb_spec ch 44) as [->|Hc]; cbn.
    + rewrite IH by done. cbn. rewrite app_nil_r, <- app_assoc. cbn.
      pose proof (split_nonempty 44 rest). by destruct (split 44 rest).
    + rewrite IH by done.
      pose proof (split_nonempty 44 rest).
      destruct (split 44 rest); [done|]. by rewrite <- app_assoc.
Qed.

Lemma parseCSVLine_plain_aux (line : jsstring) :
  34%N ∉ line -> parseCSVLine line = map trim (split 44 line).
Proof.
  intros Hq. unfold parseCSVLine. rewrite csvLoop_plain by done. cbn.
  pose proof (split_nonempty 44 line). by destruct (split 44 line).
Qed.

(** X24. A line without a double quote is cut at its commas and every
    piece is trimmed. *)
Theorem parseCSVLine_plain (line : jsstring) :
  34%N ∉ line -> parseCSVLine line = map trim (split 44 line).
Proof. apply parseCSVLine_plain_aux. Qed.

(** Three plain fields with blanks around them. *)
Lemma parseCSVLine_plain_witness :
  parseCSVLine (js "a.jsonl , Web UI,  yes") = map trim (split 44 (js "a.jsonl , Web UI,  yes")).
Proof.
  apply (parseCSVLine_plain (js "a.jsonl , Web UI,  yes")).
  apply (bool_decide_unpack _). vm_compute. exact I.
Defined.

Lemma csvLoop_quoted (b : jsstring) :
  forall r cur rest,
    34%N ∉ b ->
    csvLoop (b ++ 34%N :: rest) r cur true = csvLoop rest r (cur ++ b) false.
Proof.
  induction b as [|ch b IH]; intros r cur rest Hq; cbn.
  - by rewrite app_nil_r.
  - apply not_elem_of_cons in Hq as [Hne Hq].
    destruct (N.eqb_spec ch 34) as [->|_]; [done|].
    rewrite andb_false_r. rewrite IH by done. by rewrite <- app_assoc.
Qed.

Lemma csvLoop_app_comma (a : jsstring) :
  forall r cur rest,
    34%N ∉ a ->
    csvLoop (a ++ 44%N :: rest) r cur false
    = csvLoop rest (csvLoop a r cur false) [] false.
Proof.
  induction a as [|ch a IH]; intros r cur rest Hq; cbn; [done|].
  apply not_elem_of_cons in Hq as [Hne Hq].
  destruct (N.eqb_spec ch 34) as [->|_]; [done|].
  destruct (_ && _); by rewrite IH.
Qed.

(** X25. A comma between double quotes does not end the field: after
    plain fields [a], a last field written between quotes is returned
    whole, trimmed and without its quotes. *)
Theorem parseCSVLine_quoted_field (a b : jsstring) :
  34%N ∉ a -> 34%N ∉ b ->
  parseCSVLine (a ++ 44%N :: 34%N :: b ++ [34%N])
  = map trim (split 44 a) ++ [trim b].
Proof.
  intros Ha Hb. unfold parseCSVLine.
  rewrite csvLoop_app_comma by done. cbn.
  rewrite csvLoop_quoted by done. cbn.
  fold (parseCSVLine a). by rewrite parseCSVLine_plain_aux.
Qed.

(** A name and a quoted text with a comma in it: two fields. *)
Lemma parseCSVLine_quoted_field_witness :
  parseCSVLine (js "Alice" ++ 44%N :: 34%N :: js "Hello, world" ++ [34%N])
  = map trim (split 44 (js "Alice")) ++ [trim (js "Hello, world")].
Proof.
  apply (parseCSVLine_quoted_field (js "Alice") (js "Hello, world"));
    apply (bool_decide_unpack _); vm_compute; exact I.
Defined.






(** ** The filters of the session list *)

Section SessionFiltersProps.
Variables toLowerCase toUpperCase : jsstring -> jsstring.
Variable st : Progress * Heap.
Variable dangerData : list (jsstring * list Hit.t).

#[local] Abbreviation mf := (matchesFilter toLowerCase toUpperCase st dangerData).
#[local] Abbreviation mfs := (matchesFilters toLowerCase toUpperCase st dangerData).

(** X27. With one criterion set, [matchesFilters] decides as [matchesFilter]
    does for the key of that criterion. *)
Theorem matchesFilters_single (r : ListRow.t) :
  mfs r (Filters.mk (js "all") [] false) = mf r (js "all") /\
  mfs r (Filters.mk (js "unread") [] false) = mf r (js "unread") /\
  mfs r (Filters.mk (js "partial") [] false) = mf r (js "partial") /\
  mfs r (Filters.mk (js "done") [] false) = mf r (js "done") /\
  mfs r (Filters.mk (js "all") [js "active"] false) = mf r (js "active") /\
  mfs r (Filters.mk (js "all") [js "orphan"] false) = mf r (js "orphan") /\
  mfs r (Filters.mk (js "all") [js "deleted"] false) = mf r (js "deleted") /\
  mfs r (Filters.mk (js "all") [] true) = mf r (js "danger").
Proof.
  unfold matchesFilters, matchesFilter. cbn.
  split_and!.
  - done.
  - destruct (rowProgress st r) as [e|]; [|done].
    by destruct (ProgressEntry.noLastRead e).
  - destruct (rowProgress st r) as [e|]; [|done].
    by destruct (ProgressEntry.noLastRead e), (readAllSet e).
  - destruct (rowProgress st r) as [e|]; [|done].
    by destruct (readAllSet e).
  - by destruct (startsWith _ _).
  - by destruct (includes _ _).
  - by destruct (isDeletedRow _ _ _).
  - by destruct (hasDanger _ _).
Qed.

#[local] Abbreviation bc := (badgeCounts toLowerCase toUpperCase st dangerData).
#[local] Abbreviation step := (countBadges toLowerCase toUpperCase st dangerData).

Lemma matchesFilters_values (r : ListRow.t) :
  mfs r (Filters.mk (js "unread") [] false)
  = match rowProgress st r with
    | None => true
    | Some e => ProgressEntry.noLastRead e
    end /\
  mfs r (Filters.mk (js "partial") [] false)
  = match rowProgress st r with
    | None => false
    | Some e => negb (ProgressEntry.noLastRead e) && negb (readAllSet e)
    end /\
  mfs r (Filters.mk (js "done") [] false)
  = match rowProgress st r with
    | None => false
    | Some e => readAllSet e
    end /\
  mfs r (Filters.mk (js "all") [js "active"] false)
  = startsWith (toLowerCase (ListRow.Reason r)) (js "active") /\
  mfs r (Filters.mk (js "all") [js "orphan"] false)
  = includes (toLowerCase (ListRow.Reason r)) (js "orphan") /\
  mfs r (Filters.mk (js "all") [js "deleted"] false)
  = isDeletedRow toLowerCase toUpperCase r /\
  mfs r (Filters.mk (js "all") [] true) = hasDanger dangerData r.
Proof.
  unfold matchesFilters. cbn.
  split_and!.
  - destruct (rowProgress st r) as [e|]; [|done].
    by destruct (ProgressEntry.noLastRead e).
  - destruct (rowProgress st r) as [e|]; [|done].
    by destruct (ProgressEntry.noLastRead e), (readAllSet e).
  - destruct (rowProgress st r) as [e|]; [|done].
    by destruct (readAllSet e).
  - by destruct (startsWith _ _).
  - by destruct (includes _ _).
  - by destruct (isDeletedRow _ _ _).
  - by destruct (hasDanger _ _).
Qed.

Lemma countBadges_foldl (sessions : list ListRow.t) :
  forall c,
    let c' := foldl step c sessions in
    let n f := length (List.filter f sessions) in
    Counts.all c' = Counts.all c + length sessions /\
    Counts.unread c'
    = Counts.unread c + n (fun r => mfs r (Filters.mk (js "unread") [] false)) /\
    Counts.partial c'
    = Counts.partial c + n (fun r => mfs r (Filters.mk (js "partial") [] false)) /\
    Counts.done c'
    = Counts.done c
      + n (fun r => mfs r (Filters.mk (js "done") [] false)
                    && negb (mfs r (Filters.mk (js "unread") [] false))) /\
    Counts.active c'
    = Counts.active c + n (fun r => mfs r (Filters.mk (js "all") [js "active"] false)) /\
    Counts.orphan c'
    = Counts.orphan c + n (fun r => mfs r (Filters.mk (js "all") [js "orphan"] false)) /\
    Counts.deleted c'
    = Counts.deleted c + n (fun r => mfs r (Filters.mk (js "all") [js "deleted"] false)) /\
    Counts.danger c'
    = Counts.danger c + n (fun r => mfs r (Filters.mk (js "all") [] true)).
Proof.
  induction sessions as [|r sessions IH]; intros c; cbn zeta.
  - cbn [foldl List.filter length]. split_and!; lia.
  - cbn [foldl List.filter].
    specialize (IH (step c r)). cbn zeta in IH.
    destruct IH as (Ha & Hu & Hp & Hd & Hac & Ho & Hde & Hda).
    rewrite Ha, Hu, Hp, Hd, Hac, Ho, Hde, Hda. clear.
    destruct (matchesFilters_values r) as (-> & -> & -> & -> & -> & -> & ->).
    unfold countBadges.
    cbn [Counts.all Counts.unread Counts.partial Counts.done Counts.active
         Counts.orphan Counts.deleted Counts.danger].
    destruct (rowProgress st r) as [e|].
    + destruct (ProgressEntry.noLastRead e), (readAllSet e),
        (startsWith _ _), (includes _ _), (isDeletedRow _ _ _),
        (hasDanger _ _); cbn [negb andb length]; split_and!; lia.
    + destruct (startsWith _ _), (includes _ _), (isDeletedRow _ _ _),
        (hasDanger _ _); cbn [negb andb length]; split_and!; lia.
Qed.

(** X28. The badges of the session list count what the filters show: each
    counter but [done] is the number of rows that [matchesFilters]
    accepts with that one criterion set; [done] counts the rows accepted
    under [done] and not under [unread]; and [unread], [partial] and
    [done] add up to the number of rows. *)
Theorem badge_counts_agree (sessions : list ListRow.t) :
  let c := bc sessions in
  let n f := length (List.filter f sessions) in
  Counts.all c = length sessions /\
  Counts.unread c = n (fun r => mfs r (Filters.mk (js "unread") [] false)) /\
  Counts.partial c = n (fun r => mfs r (Filters.mk (js "partial") [] false)) /\
  Counts.done c
  = n (fun r => mfs r (Filters.mk (js "done") [] false)
                && negb (mfs r (Filters.mk (js "unread") [] false))) /\
  Counts.active c = n (fun r => mfs r (Filters.mk (js "all") [js "active"] false)) /\
  Counts.orphan c = n (fun r => mfs r (Filters.mk (js "all") [js "orphan"] false)) /\
  Counts.deleted c = n (fun r => mfs r (Filters.mk (js "all") [js "deleted"] false)) /\
  Counts.danger c = n (fun r => mfs r (Filters.mk (js "all") [] true)) /\
  Counts.unread c + Counts.partial c + Counts.done c = Counts.all c.
Proof.
  cbn zeta.
  pose proof (countBadges_foldl sessions Counts.zero) as H. cbn zeta in H.
  destruct H as (Ha & Hu & Hp & Hd & Hac & Ho & Hde & Hda).
  fold (bc sessions) in Ha, Hu, Hp, Hd, Hac, Ho, Hde, Hda.
  split_and!; try done.
  rewrite Ha, Hu, Hp, Hd. cbn [Counts.zero Counts.all Counts.unread
    Counts.partial Counts.done]. clear.
  induction sessions as [|r sessions IH]; [done|].
  cbn [List.filter].
  destruct (matchesFilters_values r) as (-> & -> & -> & _).
  destruct (rowProgress st r) as [e|].
  - destruct (ProgressEntry.noLastRead e), (readAllSet e);
      cbn [negb andb length]; lia.
  - cbn [negb andb length]. lia.
Qed.

End SessionFiltersProps.

(** ** The status of a session file *)

Lemma includes_spec (s p : jsstring) :
  includes s p = true <-> exists a b, s = a ++ p ++ b.
Proof.
  induction s as [|c s IH]; cbn [includes].
  - rewrite orb_false_r, startsWith_spec. split.
    + intros [t Ht]. by exists [], t.
    + intros (a & b & E). destruct a; [by exists b|done].
  - rewrite orb_true_iff, IH, startsWith_spec. split.
    + intros [[t Ht]|(a & b & ->)]; [by exists [], t|by exists (c :: a), b].
    + intros (a & b & E). destruct a as [|x a]; [left; by exists b|].
      right. cbn in E. injection E as -> ->. by exists a, b.
Qed.

Lemma includes_take (n : nat) (s p : jsstring) :
  includes (take n s) p = true -> includes s p = true.
Proof.
  rewrite !includes_spec. intros (a & b & E).
  exists a, (b ++ drop n s). rewrite <- (take_drop n s) at 1.
  by rewrite E, <- !app_assoc.
Qed.

Lemma stripDeleted_id (s : jsstring) :
  includes s (js ".deleted.") = false -> stripDeleted s = s.
Proof.
  induction s as [|c s IH]; intros H.
  - done.
  - cbn [stripDeleted].
    cbn [includes] in H. apply orb_false_iff in H as [H1 H2].
    unfold isDeletedSuffix. rewrite H1. cbn [andb]. by rewrite IH.
Qed.

Lemma stripJsonl_includes (s p : jsstring) :
  includes (stripJsonl s) p = true -> includes s p = true.
Proof.
  unfold stripJsonl. destruct (endsWith _ _); [apply includes_take|done].
Qed.

Lemma resolveStatus_base_aux (filename : jsstring) :
  includes filename (js ".deleted.") = false ->
  stripDeleted (stripJsonl filename) = stripJsonl filename.
Proof.
  intros H. apply stripDeleted_id.
  destruct (includes (stripJsonl filename) _) eqn:E; [|done].
  apply stripJsonl_includes in E. congruence.
Qed.

(** X29. The second replacement in [resolveStatus] never changes
    anything: a file name that reaches it has no [.deleted.] in it, so
    the base is the file name without its [.jsonl] ending. *)
Theorem resolveStatus_base (filename : jsstring) :
  includes filename (js ".deleted.") = false ->
  stripDeleted (stripJsonl filename) = stripJsonl filename.
Proof. apply resolveStatus_base_aux. Qed.

(** The file of a topic of a session. *)
Lemma resolveStatus_base_witness :
  stripDeleted (stripJsonl (js "4f2a-topic-7.jsonl")) = stripJsonl (js "4f2a-topic-7.jsonl").
Proof. apply (resolveStatus_base (js "4f2a-topic-7.jsonl")). reflexivity. Defined.

Lemma startsWith_refl (s : jsstring) : startsWith s s = true.
Proof. apply startsWith_spec. exists []. by rewrite app_nil_r. Qed.

(** X30. The status that [resolveStatus] gives: deleted for a name with
    [.deleted.] in it; otherwise active when the name without [.jsonl]
    starts with a session id of the map or starts one, or is the name
    of a member that the map inherits from [Object.prototype] (such as
    [constructor]: even with an empty map); and orphan in every other
    case. *)
Theorem resolveStatus_status (filename : jsstring)
    (metaById : list (jsstring * SessionMeta.t)) :
  (resolveStatus filename metaById).1
  = if includes filename (js ".deleted.") then StatusDeleted
    else if inheritsMember (stripJsonl filename)
            || existsb (related (stripJsonl filename)) metaById
    then StatusActive
    else StatusOrphan.
Proof.
  unfold resolveStatus.
  destruct (includes filename _) eqn:Hd; [done|].
  rewrite resolveStatus_base_aux by done.
  set (base := stripJsonl filename).
  destruct (obj_get base metaById) as [meta|] eqn:Hm.
  - cbn.
    assert (H : existsb (related base) metaById = true).
    { apply obj_get_Some_fst in Hm.
      apply list_elem_of_fmap in Hm as ([sid m] & -> & Hin).
      apply existsb_exists. exists (sid, m). split; [by apply list_elem_of_In|].
      unfold related. cbn. by rewrite startsWith_refl. }
    by rewrite H, orb_true_r.
  - destruct (inheritsMember base); [done|]. cbn [orb].
    destruct (List.find (related base) metaById) as [[sid m]|] eqn:Hf.
    + apply find_some in Hf as [Hin Hr].
      assert (H : existsb (related base) metaById = true).
      { apply existsb_exists. by exists (sid, m). }
      by rewrite H.
    + assert (H : existsb (related base) metaById = false).
      { destruct (existsb _ _) eqn:E; [|done].
        apply existsb_exists in E as (x & Hin & Hx).
        by rewrite (find_none _ _ Hf x Hin) in Hx. }
      by rewrite H.
Qed.

(** With no session at all, the file [constructor.jsonl] is active and
    the file [notes.jsonl] is an orphan. *)
Lemma resolveStatus_status_witness :
  (resolveStatus (js "constructor.jsonl") []).1 = StatusActive
  /\ (resolveStatus (js "notes.jsonl") []).1 = StatusOrphan.
Proof.
  rewrite (resolveStatus_status (js "constructor.jsonl") []),
    (resolveStatus_status (js "notes.jsonl") []).
  split; vm_compute; reflexivity.
Defined.
